(** * MTA_Alerts: the ingestion-and-aggregation engine of [datacache.js]

    A shallow embedding of [makeRequest], [scrapePage], [initLineData],
    [refreshData] and the [DataCache] queries, followed by the properties
    of the per-cycle accounting.

    [datacache.js] is present in two revisions.  The first polls the GTFS
    alert feed only; the second adds the scrape of new.mta.info behind the
    constant [sourceIsGtfsApi].  The feed branch is the same text in both,
    so one embedding with the flag as an argument covers the two files. *)

From Stdlib Require Import ZArith String Ascii List Lia Bool.
From Stdlib.Strings Require Import Byte.
From stdpp Require Import base option list gmap strings.

Open Scope string_scope.
Open Scope Z_scope.

(** ** Constants *)

Definition REFRESH_INTERVAL : Z := 59 * 1000.

Definition SUBWAY_LINES : list string :=
  [ "1"; "2"; "3"; "4"; "5"; "6"; "7";
    "A"; "B"; "C"; "D"; "E"; "F"; "G"; "J"; "L"; "M"; "N"; "Q"; "R"; "W"; "Z";
    "SI" ].

(** ** Line records *)

Inductive Status := NOT_DELAYED | DELAYED.

#[global] Instance Status_eq_dec : EqDecision Status.
Proof. solve_decision. Defined.

(** The strings the code stores in [status]. *)
Definition status_text (s : Status) : string :=
  match s with NOT_DELAYED => "NOT DELAYED" | DELAYED => "DELAYED" end.

(** Times are the integers [Date.getTime()] returns (milliseconds). *)
Record LineRecord := mkLine {
  activeTime : Z;
  undelayedTime : Z;
  lastUpdated : Z;
  status : Status
}.

#[global] Instance LineRecord_eq_dec : EqDecision LineRecord.
Proof. solve_decision. Defined.

Definition initLineData (time : Z) : LineRecord :=
  {| activeTime := 0; undelayedTime := 0; lastUpdated := time;
     status := NOT_DELAYED |}.

(** ** The store: [lineData], an object literal used as a dictionary

    The own properties of [lineData] are a finite map from line names to
    records.  [lineData] is created as [{}], so a property read that
    finds no own property goes on to [Object.prototype].  The names of
    [OBJECT_PROTOTYPE_KEYS] are found there on every object literal and
    hold built-in objects, all truthy; the one under [__proto__] is
    [Object.prototype] itself.  A write through such a name lands on the
    built-in object, not on [lineData]; through [__proto__] it lands on
    [Object.prototype], where every object literal, [lineData] and
    [linesSeen] included, then finds the properties written.  So the
    store carries, next to the records, what the code has written on
    [Object.prototype] so far. *)

(** The properties that writes through [__proto__] have left on
    [Object.prototype].  [activeTime] is written together with
    [lastUpdated]; it and [undelayedTime] only ever receive [NaN]
    (a sum with [undefined]). *)
Record Prototype := mkPrototype {
  protoLastUpdated : option Z;      (* [lastUpdated], once written *)
  protoStatus : option Status;      (* [status], once written *)
  protoUndelayedTime : bool         (* [undelayedTime] has been written *)
}.

#[global] Instance Prototype_eq_dec : EqDecision Prototype.
Proof. solve_decision. Defined.

Definition cleanPrototype : Prototype :=
  {| protoLastUpdated := None; protoStatus := None;
     protoUndelayedTime := false |}.

Record Store := mkStore {
  records : gmap string LineRecord;   (* the own properties of [lineData] *)
  prototype : Prototype
}.

(** [d !! key] is the record stored under [key], an own property. *)
#[global] Instance Store_lookup : Lookup string LineRecord Store :=
  fun key d => records d !! key.

(** [<[ key := r ]> d] is the assignment [lineData[key] = r]. *)
#[global] Instance Store_insert : Insert string LineRecord Store :=
  fun key r d => mkStore (<[ key := r ]> (records d)) (prototype d).

(** [{}], in a runtime whose [Object.prototype] is as it starts. *)
#[global] Instance Store_empty : Empty Store := mkStore ∅ cleanPrototype.

Definition OBJECT_PROTOTYPE_KEYS : list string :=
  [ "constructor"; "__proto__"; "hasOwnProperty"; "isPrototypeOf";
    "propertyIsEnumerable"; "toLocaleString"; "toString"; "valueOf";
    "__defineGetter__"; "__defineSetter__";
    "__lookupGetter__"; "__lookupSetter__" ].

Definition inherited (key : string) : bool :=
  bool_decide (key ∈ OBJECT_PROTOTYPE_KEYS).

(** What [lineData[key]] evaluates to. *)
Inductive Property :=
  | Own (r : LineRecord)   (* a record stored under [key] *)
  | Builtin                (* a built-in object of [Object.prototype] *)
  | Truthy                 (* a truthy string or number written there *)
  | Falsy                  (* [NaN] or [0] written there *)
  | Undefined.

(** What a read of [key] finds on [Object.prototype]. *)
Definition inheritedValue (p : Prototype) (key : string) : Property :=
  if inherited key then Builtin
  else if String.eqb key "status" then
    match protoStatus p with Some _ => Truthy | None => Undefined end
  else if String.eqb key "lastUpdated" then
    match protoLastUpdated p with
    | Some t => if t =? 0 then Falsy else Truthy
    | None => Undefined
    end
  else if String.eqb key "activeTime" then
    match protoLastUpdated p with Some _ => Falsy | None => Undefined end
  else if String.eqb key "undelayedTime" then
    if protoUndelayedTime p then Falsy else Undefined
  else Undefined.

Definition getProperty (lineData : Store) (key : string) : Property :=
  match lineData !! key with
  | Some r => Own r
  | None => inheritedValue (prototype lineData) key
  end.

(** The inherited value under [key] is truthy. *)
Definition truthyInherited (p : Prototype) (key : string) : bool :=
  match inheritedValue p key with
  | Builtin | Truthy => true
  | _ => false
  end.

(** ** Decoded feed messages *)

(** Modelled from the spec: the schemas [lib/protos/nyct-subway.proto]
    and [lib/protos/gtfs-realtime-service-status.proto] are missing from
    the sources.  "Each alert entity may carry a header string and a list
    of affected LineIds"; the fields are those [refreshData] reads off a
    decoded message, and an optional field that is unset reads as
    [null]. *)
Record Translation := { text : string }.
Record TranslatedString := { translation : option Translation }.
Record EntitySelector := { route_id : option string }.
Record Alert := {
  header_text : option TranslatedString;
  informed_entity : list EntitySelector
}.
Record FeedEntity := { alert : option Alert }.
Record FeedMessage := { entity : list FeedEntity }.

(** What [makeRequest] resolves with: a decoded message, or the [{}] of
    the inner [catch]. *)
Inductive Msg :=
  | Decoded (m : FeedMessage)
  | EmptyObject.

(** ** Promises, as far as the code uses them *)

Inductive Settled (A : Type) :=
  | Resolved (a : A)
  | Rejected.
Arguments Resolved {A} a.
Arguments Rejected {A}.

(** [Promise.all]: resolves with all the values when every promise
    resolves, rejects as soon as one rejects. *)
Fixpoint Promise_all {A} (ps : list (Settled A)) : Settled (list A) :=
  match ps with
  | [] => Resolved []
  | Rejected :: _ => Rejected
  | Resolved a :: ps' =>
      match Promise_all ps' with
      | Resolved l => Resolved (a :: l)
      | Rejected => Rejected
      end
  end.

(** ** makeRequest *)

(** What the HTTPS layer delivers for one feed: a connection error, or a
    status code and the body in chunks. *)
Inductive Response :=
  | ConnectionError (message : string)
  | HttpResponse (statusCode : Z) (chunks : list (list byte)).

Definition Buffer_concat (chunks : list (list byte)) : list byte :=
  concat chunks.

Section Feed.

(** The two protobuf decoders; [None] is a decoder that throws. *)
Variable nstrDecoder : list byte -> option FeedMessage.
Variable nsssDecoder : list byte -> option FeedMessage.

Definition makeRequest (res : Response) : Settled Msg :=
  match res with
  | ConnectionError _ => Rejected
  | HttpResponse statusCode chunks =>
      if (statusCode <? 200) || (statusCode >=? 300) then Rejected
      else
        let data := Buffer_concat chunks in
        match nstrDecoder data with
        | Some msg => Resolved (Decoded msg)
        | None =>
            match nsssDecoder data with
            | Some msg => Resolved (Decoded msg)
            | None => Resolved EmptyObject
            end
        end
  end.

End Feed.

(** ** The delay pattern

    [new RegExp('^delays\b', 'i')]: the pattern is built from a string
    literal, where [\b] is the backspace character U+0008, so the pattern
    is the start anchor followed by the seven characters d e l a y s
    U+0008, compared ignoring case. *)

Definition backspace : ascii := ascii_of_nat 8.

Definition delaysRegExp_literal : string :=
  String.append "delays" (String backspace EmptyString).

(** Case folding of the [i] flag.  Only the letters a to z fold onto
    A to Z; no other character folds onto an ASCII one, which is all a
    comparison with this pattern can see. *)
Definition canonicalize (c : ascii) : ascii :=
  let n := nat_of_ascii c in
  if ((97 <=? n) && (n <=? 122))%nat then ascii_of_nat (n - 32) else c.

(** Does the literal match at the start of [s]? *)
Fixpoint matchLiteral (pat s : string) : bool :=
  match pat, s with
  | EmptyString, _ => true
  | String _ _, EmptyString => false
  | String p pat', String c s' =>
      if Ascii.eqb (canonicalize p) (canonicalize c) then matchLiteral pat' s'
      else false
  end.

(** [alertHeader.search(delaysRegExp)]: the pattern is anchored, so the
    only possible match is at index 0. *)
Definition search_delaysRegExp (alertHeader : string) : Z :=
  if matchLiteral delaysRegExp_literal alertHeader then 0 else -1.

(** The test of line 122 / 406. *)
Definition isDelayHeader (alertHeader : string) : bool :=
  negb (String.eqb alertHeader "") && (search_delaysRegExp alertHeader >=? 0).

(** ** refreshData, feed branch *)

(** What the callback of [then] works on: the local dictionary
    [linesSeen] and the shared [lineData]. *)
Record Env := mkEnv {
  linesSeen : gset string;
  lineData : Store
}.

(** How a piece of the callback ends: normally, or by a [TypeError]
    thrown at the state reached so far (writes already made stay). *)
Inductive Completion (S : Type) :=
  | Normal (s : S)
  | Throw (s : S).
Arguments Normal {S} s.
Arguments Throw {S} s.

Definition completed {S} (c : Completion S) : S :=
  match c with Normal s | Throw s => s end.

(** [Array.prototype.forEach] with a body that may throw. *)
Fixpoint forEach {A S} (body : A -> S -> Completion S) (l : list A) (s : S)
  : Completion S :=
  match l with
  | [] => Normal s
  | x :: l' =>
      match body x s with
      | Normal s' => forEach body l' s'
      | Throw s' => Throw s'
      end
  end.

(** Lines 130-136 / 414-420 on the record found under the route. *)
Definition markDelayed (currentTime : Z) (r : LineRecord) : LineRecord :=
  {| activeTime := activeTime r + (currentTime - lastUpdated r);
     undelayedTime := undelayedTime r;
     lastUpdated := currentTime;
     status := DELAYED |}.

(** Lines 130-136 / 414-420 when [lineData[route]] is a built-in object:
    the three writes land on that object.  Under [__proto__] it is
    [Object.prototype]: [activeTime] becomes [NaN], [lastUpdated] the
    clock reading, [status] the string DELAYED. *)
Definition writeDelayed (currentTime : Z) (route : string) (d : Store)
  : Store :=
  if String.eqb route "__proto__"
  then mkStore (records d)
         {| protoLastUpdated := Some currentTime;
            protoStatus := Some DELAYED;
            protoUndelayedTime := protoUndelayedTime (prototype d) |}
  else d.

(** The body of [informed_entity.forEach], lines 124-138 / 408-422.
    A [null] or empty [route_id] is falsy.  When [lineData[route]] is
    falsy a record is created; when it is an inherited string or number
    the writes on it are dropped. *)
Definition onInformedEntity (currentTime : Z) (e : Env)
    (infEntity : EntitySelector) : Env :=
  match route_id infEntity with
  | None => e
  | Some route =>
      if String.eqb route "" then e
      else
        let seen := {[ route ]} ∪ linesSeen e in
        match getProperty (lineData e) route with
        | Undefined | Falsy =>
            mkEnv seen
              (<[ route := markDelayed currentTime (initLineData currentTime) ]>
                 (lineData e))
        | Own r =>
            mkEnv seen (<[ route := markDelayed currentTime r ]> (lineData e))
        | Builtin => mkEnv seen (writeDelayed currentTime route (lineData e))
        | Truthy => mkEnv seen (lineData e)
        end
  end.

(** The body of [feedMessage.entity.forEach], lines 114-141 / 399-425. *)
Definition onFeedEntity (currentTime : Z) (e : Env) (feedEntity : FeedEntity)
  : Env :=
  match alert feedEntity with
  | None => e
  | Some a =>
      match header_text a with
      | None => e
      | Some header =>
          match translation header with
          | None => e
          | Some tr =>
              let alertHeader := text tr in
              if isDelayHeader alertHeader
              then foldl (onInformedEntity currentTime) e (informed_entity a)
              else e
          end
      end
  end.

(** The body of [results.forEach]: [feedMessage.entity] is [undefined]
    on the [{}] of a failed decode, and calling [forEach] on it throws. *)
Definition onFeedMessage (currentTime : Z) (feedMessage : Msg) (e : Env)
  : Completion Env :=
  match feedMessage with
  | Decoded m => Normal (foldl (onFeedEntity currentTime) e (entity m))
  | EmptyObject => Throw e
  end.

(** Lines 148-157 / 432-447 on the record of a line without alert. *)
Definition markUnseen (currentTime : Z) (r : LineRecord) : LineRecord :=
  let deltaTime := currentTime - lastUpdated r in
  {| activeTime := activeTime r + deltaTime;
     undelayedTime :=
       match status r with
       | NOT_DELAYED => undelayedTime r + deltaTime
       | DELAYED => undelayedTime r
       end;
     lastUpdated := currentTime;
     status := NOT_DELAYED |}.

(** [linesSeen[lineId]] read as a condition; [linesSeen] is an object
    literal too, with the same [Object.prototype]. *)
Definition seen (e : Env) (lineId : string) : bool :=
  bool_decide (lineId ∈ linesSeen e)
  || truthyInherited (prototype (lineData e)) lineId.

(** The body of [SUBWAY_LINES.forEach], lines 146-159 / 430-449: reading
    [lastUpdated] off a line without record throws.  A name under which
    [lineData] finds a built-in object or a truthy inherited value is
    found truthy in [linesSeen] as well, so the loop passes it; on a
    falsy inherited number the reads succeed and the writes are
    dropped. *)
Definition onSubwayLine (currentTime : Z) (lineId : string) (e : Env)
  : Completion Env :=
  if seen e lineId then Normal e
  else
    match getProperty (lineData e) lineId with
    | Own r =>
        Normal (mkEnv (linesSeen e)
                  (<[ lineId := markUnseen currentTime r ]> (lineData e)))
    | Builtin | Truthy | Falsy => Normal e
    | Undefined => Throw e
    end.

(** The callback of [then], lines 111-160 / 394-450. *)
Definition onResults (currentTime : Z) (results : list Msg) (e : Env)
  : Completion Env :=
  match forEach (onFeedMessage currentTime) results e with
  | Normal e' => forEach (onSubwayLine currentTime) SUBWAY_LINES e'
  | Throw e' => Throw e'
  end.

(** How a cycle ends, with the store it leaves.  The final
    [catch(() => {})] swallows a rejected fetch and a throwing callback
    alike. *)
Inductive Outcome :=
  | Applied (d : Store)    (* the callback ran to its end *)
  | Faulted (d : Store)    (* the callback threw part-way *)
  | Skipped (d : Store).   (* the fetch rejected, the callback never ran *)

Definition store_of (o : Outcome) : Store :=
  match o with Applied d | Faulted d | Skipped d => d end.

Section FeedCycle.

Variable nstrDecoder : list byte -> option FeedMessage.
Variable nsssDecoder : list byte -> option FeedMessage.

(** One cycle on the feed: [responses] holds what the HTTPS layer
    delivers for each entry of [FEED_IDS], in order; [currentTime] is the
    clock read when the callback starts. *)
Definition refreshFeed (responses : list Response) (currentTime : Z)
    (d : Store) : Outcome :=
  match Promise_all (map (makeRequest nstrDecoder nsssDecoder) responses) with
  | Rejected => Skipped d
  | Resolved results =>
      match onResults currentTime results (mkEnv ∅ d) with
      | Normal e => Applied (lineData e)
      | Throw e => Faulted (lineData e)
      end
  end.

End FeedCycle.

(** ** scrapePage *)

(** A node of the accessibility snapshot, with the three properties the
    walk reads; [name] and [level] may be missing. *)
Record AXNode := {
  role : string;
  name : option string;
  level : option Z
}.

Inductive Judgment := delayed | undelayed.

#[global] Instance Judgment_eq_dec : EqDecision Judgment.
Proof. solve_decision. Defined.

(** [lineStatus]: an object filled by assignment.  The pairs are kept in
    the order of first assignment; assigning to a key that is present
    replaces the value where it stands. *)
Abbreviation LineStatus := (list (string * Judgment)).

Fixpoint assign (key : string) (j : Judgment) (o : LineStatus) : LineStatus :=
  match o with
  | [] => [(key, j)]
  | (k, v) :: o' =>
      if String.eqb k key then (k, j) :: o' else (k, v) :: assign key j o'
  end.

Fixpoint getJudgment (o : LineStatus) (key : string) : option Judgment :=
  match o with
  | [] => None
  | (k, v) :: o' => if String.eqb k key then Some v else getJudgment o' key
  end.

(** [\w] or [*]. *)
Definition wordOrStar (c : ascii) : bool :=
  let n := nat_of_ascii c in
  (((48 <=? n) && (n <=? 57)) || ((65 <=? n) && (n <=? 90))
   || ((97 <=? n) && (n <=? 122)) || (n =? 95) || (n =? 42))%nat.

(** [name.match(/Subway Line ([\w*])$/)], giving the captured group.  The
    pattern has thirteen characters and must end where [name] ends. *)
Definition lineMatch (name : string) : option string :=
  let n := String.length name in
  if (n <? 13)%nat then None
  else
    let tail := String.substring (n - 13) 13 name in
    match String.get 12 tail with
    | Some c =>
        if String.eqb (String.substring 0 12 tail) "Subway Line "
           && wordOrStar c
        then Some (String c EmptyString)
        else None
    | None => None
    end.

Record Walk := mkWalk {
  serviceStatusSection : bool;
  heading : option string;     (* [None]: [undefined], taken from a nameless node *)
  lineStatus : LineStatus
}.

Definition truthy (s : option string) : bool :=
  match s with
  | Some s => negb (String.eqb s "")
  | None => false
  end.

Definition nameIs (n : AXNode) (s : string) : bool :=
  match name n with
  | Some x => String.eqb x s
  | None => false
  end.

(** The body of [snapshot.children.forEach], lines 334-357: [match] on a
    missing [name] throws. *)
Definition onNode (node : AXNode) (w : Walk) : Completion Walk :=
  if String.eqb (role node) "heading" && nameIs node "Service Status"
  then Normal (mkWalk true (heading w) (lineStatus w))
  else if serviceStatusSection w then
    let heading' :=
      if String.eqb (role node) "heading"
      then (if bool_decide (level node = Some 5) then name node else Some "")
      else heading w in
    if truthy heading' && String.eqb (role node) "button" then
      match name node with
      | None => Throw (mkWalk true heading' (lineStatus w))
      | Some nm =>
          match lineMatch nm with
          | Some line =>
              let j := if bool_decide (heading' = Some "Delays")
                       then delayed else undelayed in
              Normal (mkWalk true heading' (assign line j (lineStatus w)))
          | None => Normal (mkWalk true heading' (lineStatus w))
          end
      end
    else Normal (mkWalk true heading' (lineStatus w))
  else Normal w.

(** What the headless browser delivers: a failure of launch, navigation
    or snapshot, or a snapshot whose [children] may be missing. *)
Inductive Page :=
  | BrowserError
  | Snapshot (children : option (list AXNode)).

(** An [async] function: any throw inside rejects the promise. *)
Definition scrapePage (page : Page) : Settled LineStatus :=
  match page with
  | BrowserError => Rejected
  | Snapshot None => Rejected
  | Snapshot (Some children) =>
      match forEach onNode children (mkWalk false (Some "") []) with
      | Normal w => Resolved (lineStatus w)
      | Throw _ => Rejected
      end
  end.

(** ** Object.keys

    Own keys that are array indices come first, in ascending numeric
    order, then the other keys in the order of their creation. *)

Definition isDigit (c : ascii) : bool :=
  let n := nat_of_ascii c in ((48 <=? n) && (n <=? 57))%nat.

Fixpoint digitsValue (s : string) (acc : N) : option N :=
  match s with
  | EmptyString => Some acc
  | String c s' =>
      if isDigit c
      then digitsValue s' (10 * acc + (N.of_nat (nat_of_ascii c) - 48))%N
      else None
  end.

(** The canonical decimal strings of 0 .. 2^32 - 2. *)
Definition arrayIndex (key : string) : option N :=
  match key with
  | EmptyString => None
  | String c rest =>
      if Ascii.eqb c "0" && negb (String.eqb rest "") then None
      else
        match digitsValue key 0 with
        | Some n => if (n <? 4294967295)%N then Some n else None
        | None => None
        end
  end.

Fixpoint insertIndex (k : N * string) (l : list (N * string))
  : list (N * string) :=
  match l with
  | [] => [k]
  | k' :: l' => if (fst k <=? fst k')%N then k :: l else k' :: insertIndex k l'
  end.

Definition sortIndices (l : list (N * string)) : list (N * string) :=
  foldr insertIndex [] l.

Definition indexKeys (keys : list string) : list (N * string) :=
  omap (fun k => match arrayIndex k with Some n => Some (n, k) | None => None end)
       keys.

Definition nameKeys (keys : list string) : list string :=
  filter (fun k => arrayIndex k = None) keys.

Definition Object_keys (o : LineStatus) : list string :=
  let keys := map fst o in
  map snd (sortIndices (indexKeys keys)) ++ nameKeys keys.

(** ** refreshData, scrape branch *)

(** Lines 462-476 on the record found under the line. *)
Definition markScraped (currentTime : Z) (j : option Judgment)
    (r : LineRecord) : LineRecord :=
  let deltaTime := currentTime - lastUpdated r in
  let status1 :=
    if bool_decide (status r = NOT_DELAYED) && bool_decide (j = Some delayed)
    then DELAYED else status r in
  if bool_decide (j = Some undelayed)
  then {| activeTime := activeTime r + deltaTime;
          undelayedTime := undelayedTime r + deltaTime;
          lastUpdated := currentTime;
          status := if bool_decide (status1 = DELAYED)
                    then NOT_DELAYED else status1 |}
  else {| activeTime := activeTime r + deltaTime;
          undelayedTime := undelayedTime r;
          lastUpdated := currentTime;
          status := status1 |}.

(** The two assignments to [status] of lines 465-475, on the status
    found. *)
Definition judgedStatus (j : option Judgment) (s : Status) : Status :=
  let status1 :=
    if bool_decide (s = NOT_DELAYED) && bool_decide (j = Some delayed)
    then DELAYED else s in
  if bool_decide (j = Some undelayed)
  then (if bool_decide (status1 = DELAYED) then NOT_DELAYED else status1)
  else status1.

(** Lines 462-476 when [lineData[line]] is a built-in object: the writes
    land on that object.  Under [__proto__] it is [Object.prototype]:
    [activeTime] becomes [NaN], [lastUpdated] the clock reading, a
    [status] that is there changes as a record's would, and an
    [undelayed] judgment writes [undelayedTime]. *)
Definition writeScraped (currentTime : Z) (j : option Judgment)
    (line : string) (d : Store) : Store :=
  if String.eqb line "__proto__"
  then mkStore (records d)
         {| protoLastUpdated := Some currentTime;
            protoStatus := judgedStatus j <$> protoStatus (prototype d);
            protoUndelayedTime :=
              protoUndelayedTime (prototype d)
              || bool_decide (j = Some undelayed) |}
  else d.

(** The body of [Object.keys(lineStatus).forEach], lines 458-477. *)
Definition onScrapedLine (currentTime : Z) (lineStatus : LineStatus)
    (d : Store) (line : string) : Store :=
  match getProperty d line with
  | Undefined | Falsy =>
      <[ line := markScraped currentTime (getJudgment lineStatus line)
                   (initLineData currentTime) ]> d
  | Own r =>
      <[ line := markScraped currentTime (getJudgment lineStatus line) r ]> d
  | Builtin => writeScraped currentTime (getJudgment lineStatus line) line d
  | Truthy => d
  end.

Definition refreshScrape (page : Page) (currentTime : Z) (d : Store)
  : Outcome :=
  match scrapePage page with
  | Rejected => Skipped d
  | Resolved lineStatus =>
      Applied (foldl (onScrapedLine currentTime lineStatus) d
                 (Object_keys lineStatus))
  end.

(** ** refreshData *)

(** What the outside world hands to one cycle. *)
Record Upstream := {
  responses : list Response;   (* one per entry of [FEED_IDS] *)
  page : Page;                 (* the rendered status page *)
  currentTime : Z              (* the clock when the callback starts *)
}.

Section RefreshData.

Variable nstrDecoder : list byte -> option FeedMessage.
Variable nsssDecoder : list byte -> option FeedMessage.

Definition refreshData (sourceIsGtfsApi : bool) (up : Upstream) (d : Store)
  : Outcome :=
  if sourceIsGtfsApi
  then refreshFeed nstrDecoder nsssDecoder (responses up) (currentTime up) d
  else refreshScrape (page up) (currentTime up) d.

End RefreshData.

(** ** DataCache *)

(** The constructor's loop over [SUBWAY_LINES]. *)
Definition DataCache (startTime : Z) : Store :=
  foldl (fun d lineId => <[ lineId := initLineData startTime ]> d)
        ∅ SUBWAY_LINES.

Definition getLines : list string := SUBWAY_LINES.

(** What a query hands to the serving layer. *)
Inductive Reply :=
  | Message (s : string)          (* one of the fixed sentences, or a status *)
  | ToFixed3 (num den : Z)        (* [(num / den).toFixed(3)] *)
  | NaNText                       (* [NaN.toFixed(3)], the text "NaN" *)
  | InheritedStatus (key : string).
      (* the [status] property of the inherited value found under [key] *)

Definition NOT_FOUND : string := "We do not have data on that line.".
Definition NO_BASELINE : string :=
  "We do not have a baseline for this subway line.".

(** Through a built-in object or an inherited string or number,
    [activeTime] reads as [undefined] or [NaN]: the sum is [NaN], the
    comparison with 1000 fails, and the quotient is [NaN].  A falsy
    inherited value takes the guard like a missing one. *)
Definition getUptime (d : Store) (now : Z) (line : string) : Reply :=
  match getProperty d line with
  | Undefined | Falsy => Message NOT_FOUND
  | Builtin | Truthy => NaNText
  | Own r =>
      let deltaTime := now - lastUpdated r in
      let activeTime' := activeTime r + deltaTime in
      if activeTime' <? 1000 then Message NO_BASELINE
      else
        let undelayedTime' :=
          match status r with
          | NOT_DELAYED => undelayedTime r + deltaTime
          | DELAYED => undelayedTime r
          end in
        ToFixed3 undelayedTime' activeTime'
  end.

(** The [status] of an inherited string or number is the one found on
    [Object.prototype]. *)
Definition getStatus (d : Store) (line : string) : Reply :=
  match getProperty d line with
  | Undefined | Falsy => Message NOT_FOUND
  | Builtin => InheritedStatus line
  | Truthy =>
      match protoStatus (prototype d) with
      | Some s => Message (status_text s)
      | None => InheritedStatus line
      end
  | Own r => Message (status_text (status r))
  end.

(** * Vocabulary of the properties *)

(** ** The routes of a feed cycle

    The three nested loops of the callback touch the store once per
    truthy [route_id] of a delay-classified entity, in document order. *)

Definition truthyRoute (infEntity : EntitySelector) : option string :=
  match route_id infEntity with
  | Some route => if String.eqb route "" then None else Some route
  | None => None
  end.

Definition entityRoutes (feedEntity : FeedEntity) : list string :=
  match alert feedEntity with
  | Some a =>
      match header_text a with
      | Some header =>
          match translation header with
          | Some tr =>
              if isDelayHeader (text tr)
              then omap truthyRoute (informed_entity a) else []
          | None => []
          end
      | None => []
      end
  | None => []
  end.

Definition messageRoutes (m : FeedMessage) : list string :=
  concat (map entityRoutes (entity m)).

Definition delayRoutes (ms : list FeedMessage) : list string :=
  concat (map messageRoutes ms).

(** One mention of a truthy route: the body of [onInformedEntity] past
    its test. *)
Definition mention (currentTime : Z) (e : Env) (route : string) : Env :=
  let seen := {[ route ]} ∪ linesSeen e in
  match getProperty (lineData e) route with
  | Undefined | Falsy =>
      mkEnv seen
        (<[ route := markDelayed currentTime (initLineData currentTime) ]>
           (lineData e))
  | Own r => mkEnv seen (<[ route := markDelayed currentTime r ]> (lineData e))
  | Builtin => mkEnv seen (writeDelayed currentTime route (lineData e))
  | Truthy => mkEnv seen (lineData e)
  end.

(** The record a first mention leaves under a route: the record found
    there, or a fresh one, marked delayed; nothing when the name has no
    record and reads truthy through [Object.prototype]. *)
Definition mentioned (now : Z) (d : Store) (route : string)
  : option LineRecord :=
  match d !! route with
  | Some r => Some (markDelayed now r)
  | None =>
      if truthyInherited (prototype d) route then None
      else Some (markDelayed now (initLineData now))
  end.

(** The two names under which a write through [__proto__] leaves a
    value that can be truthy. *)
Definition protoField (key : string) : bool :=
  String.eqb key "status" || String.eqb key "lastUpdated".

(** A route whose mention at clock [now] leaves the store as it is:
    its record is already marked delayed at [now]; or it has no record
    and reads truthy through [Object.prototype], which, when the route
    is [__proto__] itself, already holds what the mention writes. *)
Definition settled (now : Z) (d : Store) (route : string) : Prop :=
  match d !! route with
  | Some r => markDelayed now r = r
  | None =>
      truthyInherited (prototype d) route = true
      ∧ (route = "__proto__" ->
         protoLastUpdated (prototype d) = Some now
         ∧ protoStatus (prototype d) = Some DELAYED)
  end.

(** Non-2xx status or connection error. *)
Definition transportFailure (res : Response) : Prop :=
  match res with
  | ConnectionError _ => True
  | HttpResponse statusCode _ => statusCode < 200 ∨ 300 <= statusCode
  end.

(** The request for [res] resolved with the decoded message [m]. *)
Definition delivers (nstrDecoder nsssDecoder : list byte -> option FeedMessage)
    (res : Response) (m : FeedMessage) : Prop :=
  makeRequest nstrDecoder nsssDecoder res = Resolved (Decoded m).


(** The record a scrape cycle leaves under a line of the snapshot: the
    record found there, or a fresh one, updated with the line's judgment;
    nothing when the name has no record and reads truthy through
    [Object.prototype]. *)
Definition scraped (now : Z) (lineStatus : LineStatus) (d : Store)
    (line : string) : option LineRecord :=
  match d !! line with
  | Some r => Some (markScraped now (getJudgment lineStatus line) r)
  | None =>
      if truthyInherited (prototype d) line then None
      else Some (markScraped now (getJudgment lineStatus line)
                   (initLineData now))
  end.

(** ** Accounting invariants *)

Definition wellAccounted (r : LineRecord) : Prop :=
  0 <= undelayedTime r <= activeTime r.

(** Every record is well accounted and was last updated no later than
    [now]. *)
Definition upTo (now : Z) (d : Store) : Prop :=
  forall key r, d !! key = Some r -> wellAccounted r ∧ lastUpdated r <= now.

(** Every record of [d] is still there in [d'], with [activeTime] and
    [lastUpdated] no smaller. *)
Definition advances (d d' : Store) : Prop :=
  forall key r, d !! key = Some r ->
    exists r', d' !! key = Some r'
               ∧ activeTime r <= activeTime r'
               ∧ lastUpdated r <= lastUpdated r'.

(** What the three updates have in common. *)
Definition advancing (now : Z) (f : LineRecord -> LineRecord) : Prop :=
  forall r, wellAccounted r -> lastUpdated r <= now ->
    wellAccounted (f r) ∧ lastUpdated (f r) <= now
    ∧ activeTime r <= activeTime (f r) ∧ lastUpdated r <= lastUpdated (f r).

(** A piece of a cycle run at clock [now]. *)
Definition Step (now : Z) (d d' : Store) : Prop :=
  upTo now d -> upTo now d' ∧ advances d d'.

(** The snapshot fetch of the cycle fails: some feed request fails in
    transport, or the scrape throws. *)
Definition fetchFailed (sourceIsGtfsApi : bool) (up : Upstream) : Prop :=
  if sourceIsGtfsApi then Exists transportFailure (responses up)
  else scrapePage (page up) = Rejected.

(** The stores a running cache goes through, with the latest clock
    reading: the constructor creates the records at [startTime]; cycles
    under either source and queries follow, each reading a clock that
    does not run backwards.  A query reads the clock and the store and
    writes nothing. *)
Inductive reachable (nstrDecoder nsssDecoder : list byte -> option FeedMessage)
  : Z -> Store -> Prop :=
  | reach_DataCache startTime :
      reachable nstrDecoder nsssDecoder startTime (DataCache startTime)
  | reach_refreshData t d sourceIsGtfsApi up :
      reachable nstrDecoder nsssDecoder t d ->
      t <= currentTime up ->
      reachable nstrDecoder nsssDecoder (currentTime up)
        (store_of (refreshData nstrDecoder nsssDecoder sourceIsGtfsApi up d))
  | reach_query t d now :
      reachable nstrDecoder nsssDecoder t d ->
      t <= now ->
      reachable nstrDecoder nsssDecoder now d.

(** * Sample inputs

    Concrete messages, bodies and stand-in decoders for the statements
    that evaluate the code at a given input. *)

Module Sample.

(** An entity with one alert whose header reads [headerText] and which
    names [routes]. *)
Definition alertOn (headerText : string) (routes : list string) : FeedEntity :=
  {| alert := Some
       {| header_text := Some {| translation := Some {| text := headerText |} |};
          informed_entity := map (fun r => {| route_id := Some r |}) routes |} |}.

(** A header the pattern accepts: DELAYS, U+0008, then more text. *)
Definition acceptedHeader : string :=
  String.append "DELAYS" (String backspace " in both directions").

Definition noAlerts : FeedMessage := {| entity := [] |}.
Definition acceptedOnA : FeedMessage :=
  {| entity := [ alertOn acceptedHeader ["A"] ] |}.
Definition delaysOnA : FeedMessage :=
  {| entity := [ alertOn "Delays" ["A"] ] |}.
Definition acceptedTwiceOnA : FeedMessage :=
  {| entity := [ alertOn acceptedHeader ["A"; "C"];
                 alertOn acceptedHeader ["A"] ] |}.

(** A stand-in for the primary decoder: the first byte of the body picks
    the message, any other body makes it throw. *)
Definition decoder (data : list byte) : option FeedMessage :=
  match data with
  | [x00] => Some noAlerts
  | [x01] => Some acceptedOnA
  | [x02] => Some delaysOnA
  | [x03] => Some acceptedTwiceOnA
  | _ => None
  end.

(** A stand-in for the fallback decoder: it throws on every body. *)
Definition noDecoder (data : list byte) : option FeedMessage := None.

Definition ok (b : byte) : Response := HttpResponse 200 [[b]].

Definition lineButton (line : string) : AXNode :=
  {| role := "button";
     name := Some (String.append
               "Click to open a modal with more information about Subway Line "
               line);
     level := None |}.

Definition headingNode (title : string) (depth : Z) : AXNode :=
  {| role := "heading"; name := Some title; level := Some depth |}.

(** A status page that files A under Delays and C under Good Service. *)
Definition statusPage : Page :=
  Snapshot (Some
    [ headingNode "Service Status" 3;
      headingNode "Delays" 5; lineButton "A";
      headingNode "Good Service" 5; lineButton "C";
      headingNode "Planned Work" 2 ]).

(** A page that rendered without any node. *)
Definition blankPage : Page := Snapshot (Some []).

(** One cycle on the feed, polled at clock 2000, with a delay alert on A. *)
Definition feedCycle : Upstream :=
  {| responses := [ok x01]; page := blankPage;
     currentTime := 2000 |}.

(** One cycle at clock 5000 whose feed request answers 500 and whose
    scrape finds no browser. *)
Definition failedCycle : Upstream :=
  {| responses := [HttpResponse 500 []]; page := BrowserError;
     currentTime := 5000 |}.

End Sample.

(** * Vocabulary of the further properties *)

(** A run of cycles, each with its source flag and what the outside
    world hands to it, on the store the previous one left. *)
Definition runCycles (nstrDecoder nsssDecoder : list byte -> option FeedMessage)
    (cycles : list (bool * Upstream)) (d : Store) : Store :=
  foldl (fun d c =>
           store_of (refreshData nstrDecoder nsssDecoder (fst c) (snd c) d))
        d cycles.

(** Every record of the store satisfies [I]. *)
Definition everyRecord (I : LineRecord -> Prop) (d : Store) : Prop :=
  forall key r, d !! key = Some r -> I r.

(** Every record of [d] is still there in [d'], related to it by [R]. *)
Definition related (R : LineRecord -> LineRecord -> Prop) (d d' : Store)
  : Prop :=
  forall key r, d !! key = Some r -> exists r', d' !! key = Some r' ∧ R r r'.

(** A piece of a cycle that keeps [I] on every record and moves every
    record along [R]. *)
Definition Preserves (I : LineRecord -> Prop)
    (R : LineRecord -> LineRecord -> Prop) (d d' : Store) : Prop :=
  everyRecord I d -> everyRecord I d' ∧ related R d d'.

(** The clock reading at which the accounting of a record started. *)
Definition anchor (r : LineRecord) : Z := lastUpdated r - activeTime r.

(** The time accounted as delayed. *)
Definition delayedTime (r : LineRecord) : Z := activeTime r - undelayedTime r.

(** The case folding of the pattern, character by character. *)
Fixpoint canonicalizeAll (s : string) : string :=
  match s with
  | EmptyString => EmptyString
  | String c s' => String (canonicalize c) (canonicalizeAll s')
  end.

(** Not the heading that opens the status section. *)
Definition notServiceStatus (node : AXNode) : Prop :=
  role node ≠ "heading" ∨ name node ≠ Some "Service Status".

(** ** Further sample inputs *)

Module Sample2.

(** A delay alert, accepted by the pattern, on a route outside
    [SUBWAY_LINES]. *)
Definition acceptedOnH : FeedMessage :=
  {| entity := [ Sample.alertOn Sample.acceptedHeader ["H"] ] |}.

(** The stand-in decoder with one more body. *)
Definition decoder (data : list byte) : option FeedMessage :=
  match data with
  | [x04] => Some acceptedOnH
  | _ => Sample.decoder data
  end.

(** A status page without the heading that opens the status section. *)
Definition noSection : list AXNode :=
  [ Sample.headingNode "Delays" 5; Sample.lineButton "A" ].

(** A status page whose headings never read Delays. *)
Definition goodService : list AXNode :=
  [ Sample.headingNode "Service Status" 3;
    Sample.headingNode "Good Service" 5; Sample.lineButton "A";
    Sample.headingNode "DELAYS" 5; Sample.lineButton "C" ].

(** Two cycles on the feed and one on the page, at clocks 2000, 61000
    and 120000. *)
Definition threeCycles : list (bool * Upstream) :=
  [ (true, Sample.feedCycle);
    (true, {| responses := [Sample.ok x00]; page := Sample.blankPage;
              currentTime := 61000 |});
    (false, {| responses := []; page := Sample.statusPage;
               currentTime := 120000 |}) ].

End Sample2.

Module Sample3.

(** Delay alerts, accepted by the pattern, on names that are read
    through [Object.prototype]. *)
Definition acceptedOnProto : FeedMessage :=
  {| entity := [ Sample.alertOn Sample.acceptedHeader ["__proto__"] ] |}.
Definition lastUpdatedThenProto : FeedMessage :=
  {| entity := [ Sample.alertOn Sample.acceptedHeader
                   ["lastUpdated"; "__proto__"] ] |}.
Definition protoThenStatus : FeedMessage :=
  {| entity := [ Sample.alertOn Sample.acceptedHeader
                   ["__proto__"; "status"] ] |}.
Definition statusThenProto : FeedMessage :=
  {| entity := [ Sample.alertOn Sample.acceptedHeader
                   ["status"; "__proto__"] ] |}.

(** The stand-in decoder with four more bodies. *)
Definition decoder (data : list byte) : option FeedMessage :=
  match data with
  | [x05] => Some acceptedOnProto
  | [x06] => Some lastUpdatedThenProto
  | [x07] => Some protoThenStatus
  | [x08] => Some statusThenProto
  | _ => Sample2.decoder data
  end.

End Sample3.
(** * Properties *)

(** ** The three record updates *)

Lemma markDelayed_twice now r :
  markDelayed now (markDelayed now r) = markDelayed now r.
Proof. unfold markDelayed; simpl. f_equal. lia. Qed.

Lemma markUnseen_twice now r :
  markUnseen now (markUnseen now r) = markUnseen now r.
Proof. unfold markUnseen; simpl. f_equal; lia. Qed.

Lemma markScraped_twice now j r :
  markScraped now j (markScraped now j r) = markScraped now j r.
Proof.
  destruct r as [a u l [|]], j as [[|]|]; unfold markScraped; simpl;
    f_equal; lia.
Qed.

(** The scrape update, judgment by judgment. *)
Lemma markScraped_cases now j r :
  activeTime (markScraped now j r) = activeTime r + (now - lastUpdated r)
  ∧ lastUpdated (markScraped now j r) = now
  ∧ undelayedTime (markScraped now j r) =
      match j with
      | Some undelayed => undelayedTime r + (now - lastUpdated r)
      | _ => undelayedTime r
      end
  ∧ status (markScraped now j r) =
      match j with
      | Some delayed => DELAYED
      | Some undelayed => NOT_DELAYED
      | None => status r
      end.
Proof. destruct r as [a u l [|]], j as [[|]|]; repeat split. Qed.

(** ** Membership tests on a list with a head *)

Lemma bool_decide_cons_ne (key x : string) (l : list string) :
  key ≠ x -> bool_decide (key ∈ x :: l) = bool_decide (key ∈ l).
Proof.
  intros Hne. apply bool_decide_ext. rewrite elem_of_cons.
  split; [by intros [? | ?] | by right].
Qed.

Lemma bool_decide_cons_eq (x : string) (l : list string) :
  bool_decide (x ∈ x :: l) = true.
Proof. apply bool_decide_eq_true_2, elem_of_cons. by left. Qed.

(** ** Reading the store *)

Lemma store_lookup_insert_eq (d : Store) key r : <[ key := r ]> d !! key = Some r.
Proof. apply (lookup_insert_eq (records d)). Qed.

Lemma store_lookup_insert_ne (d : Store) key key' r :
  key ≠ key' -> <[ key := r ]> d !! key' = d !! key'.
Proof. apply (lookup_insert_ne (records d)). Qed.

Lemma store_lookup_empty key : (∅ : Store) !! key = None.
Proof. apply (lookup_empty (M := gmap string)). Qed.

Lemma prototype_insert (d : Store) key r :
  prototype (<[ key := r ]> d) = prototype d.
Proof. reflexivity. Qed.

Lemma store_eq (d1 d2 : Store) :
  (forall key, d1 !! key = d2 !! key) -> prototype d1 = prototype d2 ->
  d1 = d2.
Proof.
  destruct d1 as [m1 p1], d2 as [m2 p2]. cbn. intros Hm ->.
  f_equal. apply map_eq, Hm.
Qed.

(** Reading a name off [Object.prototype]. *)
Lemma inheritedValue_inherited p key :
  inherited key = true -> inheritedValue p key = Builtin.
Proof. unfold inheritedValue. by intros ->. Qed.

Lemma inheritedValue_not_Own p key r : inheritedValue p key ≠ Own r.
Proof. unfold inheritedValue. repeat case_match; done. Qed.

Lemma protoField_false_inheritedValue p key :
  inherited key = false -> protoField key = false ->
  truthyInherited p key = false.
Proof.
  unfold truthyInherited, inheritedValue, protoField. intros -> H.
  apply orb_false_iff in H as [-> ->].
  destruct (String.eqb key "activeTime");
    [by destruct (protoLastUpdated p) |].
  destruct (String.eqb key "undelayedTime"); [| done].
  by destruct (protoUndelayedTime p).
Qed.

Lemma protoField_single_character key :
  String.length key = 1%nat -> protoField key = false.
Proof.
  destruct key as [| c [| c' key]]; try done. intros _.
  unfold protoField. cbn [String.eqb].
  by do 2 destruct (Ascii.eqb c _).
Qed.

Lemma inherited_not_protoField key :
  inherited key = true -> protoField key = false.
Proof.
  unfold inherited. intros H. apply bool_decide_eq_true in H.
  unfold OBJECT_PROTOTYPE_KEYS in H.
  repeat (apply elem_of_cons in H as [-> | H]; [reflexivity |]).
  by apply elem_of_nil in H.
Qed.

(** Off the two names of [protoField], what is read through
    [Object.prototype] is truthy or not whatever has been written
    there. *)
Lemma truthyInherited_protoField p p' key :
  protoField key = false -> truthyInherited p key = truthyInherited p' key.
Proof.
  intros H. destruct (inherited key) eqn:Hi.
  - unfold truthyInherited. by rewrite !inheritedValue_inherited.
  - by rewrite !protoField_false_inheritedValue.
Qed.

Lemma getProperty_Own d key r :
  d !! key = Some r -> getProperty d key = Own r.
Proof. unfold getProperty. by intros ->. Qed.

Lemma getProperty_falsy d key :
  d !! key = None -> truthyInherited (prototype d) key = false ->
  getProperty d key = Undefined ∨ getProperty d key = Falsy.
Proof.
  unfold getProperty, truthyInherited, inheritedValue. intros ->.
  repeat case_match; try done; eauto.
Qed.

Lemma getProperty_truthy d key :
  d !! key = None -> truthyInherited (prototype d) key = true ->
  getProperty d key = Builtin ∨ getProperty d key = Truthy.
Proof.
  unfold getProperty, truthyInherited, inheritedValue. intros ->.
  repeat case_match; try done; eauto.
Qed.

Lemma getProperty_Builtin d key :
  d !! key = None -> inherited key = true -> getProperty d key = Builtin.
Proof.
  unfold getProperty. intros -> H. by apply inheritedValue_inherited.
Qed.

Lemma SUBWAY_LINES_not_protoField lineId :
  lineId ∈ SUBWAY_LINES -> protoField lineId = false.
Proof.
  intros H. unfold SUBWAY_LINES in H.
  repeat (apply elem_of_cons in H as [-> | H]; [reflexivity |]).
  by apply elem_of_nil in H.
Qed.

Lemma SUBWAY_LINES_not_inherited lineId :
  lineId ∈ SUBWAY_LINES -> inherited lineId = false.
Proof.
  intros H. unfold SUBWAY_LINES in H.
  repeat (apply elem_of_cons in H as [-> | H]; [reflexivity |]).
  by apply elem_of_nil in H.
Qed.

Lemma DataCache_lookup startTime lineId :
  DataCache startTime !! lineId =
    if bool_decide (lineId ∈ SUBWAY_LINES)
    then Some (initLineData startTime) else None.
Proof.
  unfold DataCache.
  assert (G : forall (l : list string) (d : Store),
    foldl (fun d k => <[ k := initLineData startTime ]> d) d l !! lineId =
      if bool_decide (lineId ∈ l) then Some (initLineData startTime)
      else d !! lineId).
  { induction l as [| k l IH]; intros d; simpl.
    - done.
    - rewrite IH. repeat case_bool_decide; try done.
      + set_solver.
      + apply elem_of_cons in H0 as [-> | ?]; [| done].
        by rewrite store_lookup_insert_eq.
      + rewrite store_lookup_insert_ne; [done | set_solver]. }
  rewrite G. by rewrite store_lookup_empty.
Qed.

Lemma onInformedEntity_mention now e infEntity :
  onInformedEntity now e infEntity =
    match truthyRoute infEntity with
    | Some route => mention now e route
    | None => e
    end.
Proof.
  unfold mention, onInformedEntity, truthyRoute.
  destruct (route_id infEntity) as [route |]; [| done].
  by destruct (String.eqb route "").
Qed.

Lemma foldl_onInformedEntity now infs : forall e,
  foldl (onInformedEntity now) e infs
  = foldl (mention now) e (omap truthyRoute infs).
Proof.
  induction infs as [| i infs IH]; intros e; simpl; [done |].
  rewrite IH, onInformedEntity_mention.
  by destruct (truthyRoute i).
Qed.

Lemma onFeedEntity_mentions now e feedEntity :
  onFeedEntity now e feedEntity
  = foldl (mention now) e (entityRoutes feedEntity).
Proof.
  unfold onFeedEntity, entityRoutes.
  destruct (alert feedEntity) as [a |]; [| done].
  destruct (header_text a) as [h |]; [| done].
  destruct (translation h) as [tr |]; [| done].
  destruct (isDelayHeader (text tr)); [| done].
  apply foldl_onInformedEntity.
Qed.

Lemma foldl_onFeedEntity now es : forall e,
  foldl (onFeedEntity now) e es
  = foldl (mention now) e (concat (map entityRoutes es)).
Proof.
  induction es as [| x es IH]; intros e; simpl; [done |].
  by rewrite IH, foldl_app, onFeedEntity_mentions.
Qed.

Lemma forEach_onFeedMessage now ms : forall e,
  forEach (onFeedMessage now) (map Decoded ms) e
  = Normal (foldl (mention now) e (delayRoutes ms)).
Proof.
  induction ms as [| m ms IH]; intros e; simpl; [done |].
  rewrite IH. unfold delayRoutes; simpl.
  by rewrite foldl_app, foldl_onFeedEntity.
Qed.

Lemma writeDelayed_lookup now route (d : Store) key :
  writeDelayed now route d !! key = d !! key.
Proof. unfold writeDelayed. by destruct (String.eqb route "__proto__"). Qed.

Lemma writeDelayed_prototype now route (d : Store) :
  route ≠ "__proto__" -> prototype (writeDelayed now route d) = prototype d.
Proof.
  intros H. unfold writeDelayed.
  destruct (String.eqb route "__proto__") eqn:E; [| done].
  by apply String.eqb_eq in E.
Qed.

Lemma mention_lookup_eq now e route :
  lineData (mention now e route) !! route = mentioned now (lineData e) route.
Proof.
  unfold mention, mentioned, getProperty, truthyInherited.
  destruct (lineData e !! route) as [r |] eqn:E; cbn [lineData].
  - by rewrite store_lookup_insert_eq.
  - destruct (inheritedValue (prototype (lineData e)) route) eqn:Ei;
      cbn [lineData];
      rewrite ?store_lookup_insert_eq, ?writeDelayed_lookup; try done.
    unfold inheritedValue in Ei. repeat case_match; done.
Qed.

Lemma mention_lookup_ne now e route key :
  key ≠ route ->
  lineData (mention now e route) !! key = lineData e !! key.
Proof.
  intros Hne. unfold mention.
  destruct (getProperty (lineData e) route); cbn [lineData];
    by rewrite ?store_lookup_insert_ne, ?writeDelayed_lookup.
Qed.

Lemma mention_prototype now e route :
  route ≠ "__proto__" ->
  prototype (lineData (mention now e route)) = prototype (lineData e).
Proof.
  intros Hne. unfold mention.
  destruct (getProperty (lineData e) route); cbn [lineData];
    by rewrite ?prototype_insert, ?writeDelayed_prototype.
Qed.

Lemma mention_linesSeen now e route :
  linesSeen (mention now e route) = {[ route ]} ∪ linesSeen e.
Proof. unfold mention. by destruct (getProperty (lineData e) route). Qed.

(** A name that reads truthy through [Object.prototype] still does
    after it is mentioned. *)
Lemma mention_truthyInherited now e route :
  truthyInherited (prototype (lineData e)) route = true ->
  truthyInherited (prototype (lineData (mention now e route))) route = true.
Proof.
  destruct (String.eqb route "__proto__") eqn:E.
  - apply String.eqb_eq in E as ->. by intros _.
  - apply String.eqb_neq in E. by rewrite mention_prototype.
Qed.

Lemma mentioned_twice now e route :
  mentioned now (lineData (mention now e route)) route
  = mentioned now (lineData e) route.
Proof.
  unfold mentioned at 1. rewrite mention_lookup_eq.
  unfold mentioned.
  destruct (lineData e !! route) as [r |].
  - by rewrite markDelayed_twice.
  - destruct (truthyInherited (prototype (lineData e)) route) eqn:Ht.
    + by rewrite mention_truthyInherited.
    + by rewrite markDelayed_twice.
Qed.

(** What a first mention would leave under another key is not changed
    by a mention, as long as the key has a record, or is not one of the
    two names a write through [__proto__] makes truthy, or the mention
    is not of [__proto__]. *)
Lemma mentioned_ne now e route key :
  key ≠ route ->
  is_Some (lineData e !! key) ∨ protoField key = false ∨ route ≠ "__proto__" ->
  mentioned now (lineData (mention now e route)) key
  = mentioned now (lineData e) key.
Proof.
  intros Hne Hside. unfold mentioned. rewrite mention_lookup_ne by done.
  destruct (lineData e !! key) as [r |] eqn:E; [done |].
  destruct Hside as [[? ?] | [Hp | Hr]]; [done | |].
  - by rewrite (truthyInherited_protoField _ (prototype (lineData e))).
  - by rewrite mention_prototype.
Qed.

Lemma mentions_linesSeen now routes : forall e,
  linesSeen (foldl (mention now) e routes)
  = list_to_set routes ∪ linesSeen e.
Proof.
  induction routes as [| x routes IH]; intros e; simpl.
  - by rewrite (left_id_L ∅ (∪)).
  - rewrite IH, mention_linesSeen.
    by rewrite (assoc_L (∪)), (comm_L (∪) _ {[ x ]}).
Qed.

(** A key that is not named holds what it held. *)
Lemma mentions_lookup_notin now routes : forall e key,
  key ∉ routes ->
  lineData (foldl (mention now) e routes) !! key = lineData e !! key.
Proof.
  induction routes as [| x routes IH]; intros e key Hnin; [done |].
  apply not_elem_of_cons in Hnin as [Hne Hnin].
  cbn [foldl]. rewrite IH by done. by apply mention_lookup_ne.
Qed.

Lemma mentions_prototype now routes : forall e,
  "__proto__" ∉ routes ->
  prototype (lineData (foldl (mention now) e routes))
  = prototype (lineData e).
Proof.
  induction routes as [| x routes IH]; intros e Hnin; [done |].
  apply not_elem_of_cons in Hnin as [Hne Hnin].
  cbn [foldl]. rewrite IH by done. by apply mention_prototype.
Qed.

(** After all the mentions of a cycle, a route that was named holds what
    its first mention left, whatever was named after it; a route that was
    not named holds what it held.  Whether the first mention of a name
    without record creates one can depend on an earlier mention of
    [__proto__] for the two names of [protoField] only. *)
Lemma mentions_lookup now routes : forall e key,
  is_Some (lineData e !! key) ∨ protoField key = false ∨ "__proto__" ∉ routes ->
  lineData (foldl (mention now) e routes) !! key =
    if bool_decide (key ∈ routes) then mentioned now (lineData e) key
    else lineData e !! key.
Proof.
  induction routes as [| x routes IH]; intros e key Hside.
  - done.
  - cbn [foldl]. rewrite IH.
    + destruct (decide (key = x)) as [-> | Hne].
      * rewrite bool_decide_cons_eq, mentioned_twice.
        case_bool_decide; [done |]. apply mention_lookup_eq.
      * rewrite bool_decide_cons_ne by done.
        rewrite mention_lookup_ne by done.
        rewrite mentioned_ne; [done | done |].
        destruct Hside as [? | [? | Hnin]]; [by left | by right; left |].
        right; right. apply not_elem_of_cons in Hnin as [? _]. done.
    + destruct Hside as [Hs | [? | Hnin]]; [left | by right; left |].
      * destruct (decide (key = x)) as [-> | Hne].
        -- rewrite mention_lookup_eq. unfold mentioned.
           destruct Hs as [r ->]. eauto.
        -- by rewrite mention_lookup_ne.
      * right; right. by apply not_elem_of_cons in Hnin as [_ ?].
Qed.

(** ** The loop over SUBWAY_LINES *)

Lemma onSubwayLine_linesSeen now lineId e :
  linesSeen (completed (onSubwayLine now lineId e)) = linesSeen e.
Proof.
  unfold onSubwayLine. destruct (seen e lineId); [done |].
  by destruct (getProperty (lineData e) lineId).
Qed.

Lemma onSubwayLine_prototype now lineId e :
  prototype (lineData (completed (onSubwayLine now lineId e)))
  = prototype (lineData e).
Proof.
  unfold onSubwayLine. destruct (seen e lineId); [done |].
  by destruct (getProperty (lineData e) lineId).
Qed.

Lemma seen_linesSeen e e' lineId :
  linesSeen e' = linesSeen e ->
  prototype (lineData e') = prototype (lineData e) ->
  seen e' lineId = seen e lineId.
Proof. unfold seen. by intros -> ->. Qed.

(** With a record under every line of the list, the loop runs to its
    end; a line of the list that was not seen holds its record marked
    unseen, every other key holds what it held. *)
Lemma forEach_onSubwayLine now lines : forall e,
  (forall lineId, lineId ∈ lines -> is_Some (lineData e !! lineId)) ->
  exists e',
    forEach (onSubwayLine now) lines e = Normal e'
    ∧ linesSeen e' = linesSeen e
    ∧ prototype (lineData e') = prototype (lineData e)
    ∧ forall key,
        lineData e' !! key =
          if bool_decide (key ∈ lines) && negb (seen e key)
          then markUnseen now <$> lineData e !! key
          else lineData e !! key.
Proof.
  induction lines as [| x lines IH]; intros e Hrec.
  - exists e. by repeat split.
  - destruct (Hrec x) as [r Hr]; [apply elem_of_cons; by left |].
    cbn [forEach]. unfold onSubwayLine at 1.
    destruct (seen e x) eqn:Hx.
    + destruct (IH e) as (e' & -> & Hs & Hp & Hl).
      { intros l Hl. apply Hrec, elem_of_cons. by right. }
      exists e'. repeat split; try done. intros key. rewrite Hl.
      destruct (decide (key = x)) as [-> | Hne].
      * by rewrite Hx, !andb_false_r.
      * by rewrite bool_decide_cons_ne.
    + rewrite (getProperty_Own _ _ _ Hr).
      set (e1 := mkEnv (linesSeen e) (<[x:=markUnseen now r]> (lineData e))).
      destruct (IH e1) as (e' & -> & Hs & Hp & Hl).
      { intros l Hl. subst e1; cbn [lineData].
        destruct (decide (l = x)) as [-> | Hne].
        - rewrite store_lookup_insert_eq. eauto.
        - rewrite store_lookup_insert_ne by done.
          apply Hrec, elem_of_cons. by right. }
      exists e'. repeat split; try done. intros key. rewrite Hl.
      rewrite (seen_linesSeen e e1) by done.
      subst e1; cbn [lineData].
      destruct (decide (key = x)) as [-> | Hne].
      * rewrite store_lookup_insert_eq, Hr, Hx, bool_decide_cons_eq. cbn.
        rewrite markUnseen_twice. by case_bool_decide.
      * rewrite store_lookup_insert_ne by done. by rewrite bool_decide_cons_ne.
Qed.

(** ** Promise.all *)

Lemma Promise_all_Rejected {A} (ps : list (Settled A)) :
  Rejected ∈ ps -> Promise_all ps = Rejected.
Proof.
  induction ps as [| p ps IH]; intros H.
  - by apply elem_of_nil in H.
  - apply elem_of_cons in H as [<- | H]; [done |].
    cbn. destruct p; [| done]. by rewrite IH.
Qed.

Lemma Promise_all_Resolved {A} (ps : list (Settled A)) (vs : list A) :
  Forall2 (fun p v => p = Resolved v) ps vs -> Promise_all ps = Resolved vs.
Proof.
  induction 1 as [| p v ps vs -> _ IH]; [done |]. cbn. by rewrite IH.
Qed.

(** ** One feed cycle *)

Section FeedProperties.

Variable nstrDecoder : list byte -> option FeedMessage.
Variable nsssDecoder : list byte -> option FeedMessage.

Abbreviation makeRequest := (makeRequest nstrDecoder nsssDecoder).
Abbreviation refreshFeed := (refreshFeed nstrDecoder nsssDecoder).
Abbreviation delivers := (delivers nstrDecoder nsssDecoder).

Lemma makeRequest_Rejected res :
  transportFailure res -> makeRequest res = Rejected.
Proof.
  destruct res as [msg | statusCode chunks]; [done |]. cbn. intros [H | H].
  - by rewrite (proj2 (Z.ltb_lt _ _) H).
  - rewrite (proj2 (Z.geb_le _ _) H). by rewrite orb_true_r.
Qed.

Lemma refreshFeed_transportFailure responses now d :
  Exists transportFailure responses -> refreshFeed responses now d = Skipped d.
Proof.
  intros H. unfold refreshFeed.
  rewrite Promise_all_Rejected; [done |].
  apply Exists_exists in H as (res & Hin & Hres).
  apply list_elem_of_fmap. exists res. split; [| done].
  symmetry. by apply makeRequest_Rejected.
Qed.

Lemma Promise_all_delivers responses ms :
  Forall2 delivers responses ms ->
  Promise_all (map makeRequest responses) = Resolved (map Decoded ms).
Proof.
  intros H. apply Promise_all_Resolved.
  induction H; constructor; done.
Qed.

(** The store after a cycle in which every request resolved with a
    decoded message, key by key.  The side condition leaves out one
    case only: a name of [protoField] without record that is named in a
    cycle that also names [__proto__], where the order of the two
    decides whether a record is created. *)
Lemma refreshFeed_Applied responses ms now d :
  Forall2 delivers responses ms ->
  (forall lineId, lineId ∈ SUBWAY_LINES -> is_Some (d !! lineId)) ->
  exists d',
    refreshFeed responses now d = Applied d'
    ∧ (forall key,
         is_Some (d !! key) ∨ protoField key = false
         ∨ "__proto__" ∉ delayRoutes ms ∨ key ∉ delayRoutes ms ->
         d' !! key =
           if bool_decide (key ∈ delayRoutes ms) then mentioned now d key
           else if bool_decide (key ∈ SUBWAY_LINES)
                then markUnseen now <$> d !! key
                else d !! key)
    ∧ ("__proto__" ∉ delayRoutes ms -> prototype d' = prototype d).
Proof.
  intros Hall Hrec. unfold refreshFeed, onResults.
  rewrite (Promise_all_delivers _ _ Hall), forEach_onFeedMessage.
  set (e1 := foldl (mention now) (mkEnv ∅ d) (delayRoutes ms)).
  assert (Hlk : forall key,
            is_Some (d !! key) ∨ protoField key = false
            ∨ "__proto__" ∉ delayRoutes ms ∨ key ∉ delayRoutes ms ->
            lineData e1 !! key =
              if bool_decide (key ∈ delayRoutes ms) then mentioned now d key
              else d !! key).
  { intros key [? | [? | [? | Hnin]]]; subst e1.
    - apply mentions_lookup. by left.
    - apply mentions_lookup. by right; left.
    - apply mentions_lookup. by right; right.
    - rewrite mentions_lookup_notin by done.
      by rewrite bool_decide_eq_false_2. }
  destruct (forEach_onSubwayLine now SUBWAY_LINES e1)
    as (e' & -> & _ & Hp & Hl).
  { intros l Hin. destruct (Hrec l Hin) as [r Hr].
    rewrite Hlk by (left; eauto).
    case_bool_decide; [| eauto]. unfold mentioned. rewrite Hr. eauto. }
  exists (lineData e'). split; [done |]. split.
  - intros key Hside. rewrite Hl, Hlk by done.
    unfold seen. subst e1. rewrite mentions_linesSeen. cbn [linesSeen].
    rewrite (right_id_L ∅ (∪)).
    rewrite (bool_decide_ext
               (key ∈ (list_to_set (delayRoutes ms) : gset string))
               (key ∈ delayRoutes ms)) by apply elem_of_list_to_set.
    destruct (bool_decide (key ∈ delayRoutes ms)) eqn:Hr.
    + by rewrite orb_true_l, andb_false_r.
    + rewrite orb_false_l.
      destruct (bool_decide (key ∈ SUBWAY_LINES)) eqn:Hs; [| done].
      apply bool_decide_eq_true in Hs.
      by rewrite protoField_false_inheritedValue
        by (by apply SUBWAY_LINES_not_inherited
            || by apply SUBWAY_LINES_not_protoField).
  - intros Hnin. rewrite Hp. subst e1. by rewrite mentions_prototype.
Qed.

End FeedProperties.

(** [makeRequest] rejects on a transport failure only: a response with
    a status in 200..299 resolves, whatever the two decoders make of the
    body. *)
Lemma makeRequest_Rejected_iff
    (nstrDecoder nsssDecoder : list byte -> option FeedMessage)
    (res : Response) :
  makeRequest nstrDecoder nsssDecoder res = Rejected <-> transportFailure res.
Proof.
  split; [| apply makeRequest_Rejected].
  destruct res as [msg | statusCode chunks]; [done |]. cbn.
  destruct (statusCode <? 200) eqn:E1; [intros _; left; lia |].
  destruct (statusCode >=? 300) eqn:E2.
  - intros _. right. by apply Z.geb_le.
  - cbn. destruct (nstrDecoder _); [done |]. by destruct (nsssDecoder _).
Qed.

Lemma Promise_all_Rejected_inv {A} (ps : list (Settled A)) :
  Promise_all ps = Rejected -> Rejected ∈ ps.
Proof.
  induction ps as [| [a |] ps IH]; cbn; [done | | intros _; by left].
  destruct (Promise_all ps); [done |]. intros _. right. by apply IH.
Qed.

Lemma DataCache_tracked startTime lineId :
  lineId ∈ SUBWAY_LINES -> is_Some (DataCache startTime !! lineId).
Proof.
  intros H. rewrite DataCache_lookup, bool_decide_eq_true_2 by done. eauto.
Qed.

(** ** C4: what a feed cycle does to a tracked line *)

(** C4, as the code has it.  After a cycle on the feed in which every
    request resolved with a decoded message, at clock [now], a line of
    [SUBWAY_LINES] with record [r] has: [activeTime] raised by
    [now - lastUpdated r]; [lastUpdated] equal to [now]; [undelayedTime]
    raised by the same amount exactly when the line was not named by a
    delay alert of this cycle and its status before was [NOT_DELAYED], and
    left as it was otherwise (a line named by a delay alert never gets the
    interval on [undelayedTime], whatever its status before); status
    [DELAYED] when named by a delay alert and [NOT_DELAYED] otherwise. *)
Theorem refreshFeed_tracked_line
    (nstrDecoder nsssDecoder : list byte -> option FeedMessage)
    (responses : list Response) (ms : list FeedMessage) (now : Z)
    (d : Store) (lineId : string) (r : LineRecord) :
  Forall2 (delivers nstrDecoder nsssDecoder) responses ms ->
  (forall l, l ∈ SUBWAY_LINES -> is_Some (d !! l)) ->
  lineId ∈ SUBWAY_LINES ->
  d !! lineId = Some r ->
  exists d' r',
    refreshFeed nstrDecoder nsssDecoder responses now d = Applied d'
    ∧ d' !! lineId = Some r'
    ∧ activeTime r' = activeTime r + (now - lastUpdated r)
    ∧ lastUpdated r' = now
    ∧ undelayedTime r' =
        (if negb (bool_decide (lineId ∈ delayRoutes ms))
            && bool_decide (status r = NOT_DELAYED)
         then undelayedTime r + (now - lastUpdated r)
         else undelayedTime r)
    ∧ status r' =
        (if bool_decide (lineId ∈ delayRoutes ms) then DELAYED
         else NOT_DELAYED).
Proof.
  intros Hall Hrec Hin Hr.
  destruct (refreshFeed_Applied _ _ _ _ now d Hall Hrec)
    as (d' & Hd' & Hl & _).
  exists d'. specialize (Hl lineId (or_introl (mk_is_Some _ _ Hr))).
  unfold mentioned in Hl.
  rewrite Hr, (bool_decide_eq_true_2 _ Hin) in Hl.
  destruct (bool_decide (lineId ∈ delayRoutes ms)).
  - exists (markDelayed now r). by repeat split.
  - exists (markUnseen now r). repeat split; try done.
    destruct r as [a u l [|]]; done.
Qed.

Lemma refreshFeed_tracked_line_witness :
  exists d' r',
    refreshFeed Sample.decoder Sample.noDecoder [Sample.ok x01] 2000
      (DataCache 0) = Applied d'
    ∧ d' !! "C" = Some r'
    ∧ activeTime r' = 0 + (2000 - 0)
    ∧ lastUpdated r' = 2000
    ∧ undelayedTime r' =
        (if negb (bool_decide ("C" ∈ delayRoutes [Sample.acceptedOnA]))
            && bool_decide (NOT_DELAYED = NOT_DELAYED)
         then 0 + (2000 - 0) else 0)
    ∧ status r' =
        (if bool_decide ("C" ∈ delayRoutes [Sample.acceptedOnA]) then DELAYED
         else NOT_DELAYED).
Proof.
  apply (refreshFeed_tracked_line Sample.decoder Sample.noDecoder
           [Sample.ok x01] [Sample.acceptedOnA] 2000 (DataCache 0) "C"
           (initLineData 0)).
  - repeat constructor.
  - apply DataCache_tracked.
  - by apply (bool_decide_unpack _).
  - vm_compute. reflexivity.
Defined.

(** C4, as stated, fails on a line named by a delay alert: line A, not
    delayed since clock 0, is named by a delay alert at clock 2000; the
    2000 ms go to [activeTime] only, where the claim adds them to
    [undelayedTime] as well. *)
Lemma refreshFeed_delayed_line_takes_no_credit :
  let d := DataCache 0 in
  let d' := store_of (refreshFeed Sample.decoder Sample.noDecoder
                        [Sample.ok x01] 2000 d) in
  d !! "A" = Some {| activeTime := 0; undelayedTime := 0; lastUpdated := 0;
                     status := NOT_DELAYED |}
  ∧ d' !! "A" = Some {| activeTime := 2000; undelayedTime := 0;
                        lastUpdated := 2000; status := DELAYED |}
  ∧ undelayedTime <$> d' !! "A" ≠ Some (0 + (2000 - 0)).
Proof.
  split; [by vm_compute | split; [by vm_compute |]].
  vm_compute. intros H. discriminate H.
Qed.

(** ** C10: naming a route again in the same cycle *)



(** Whatever messages follow, decoded or not, the callback has made a
    run of mentions when it stops. *)
Lemma forEach_onFeedMessage_mentions now msgs : forall e,
  exists routes,
    completed (forEach (onFeedMessage now) msgs e)
    = foldl (mention now) e routes.
Proof.
  induction msgs as [| [m |] msgs IH]; intros e; cbn [forEach onFeedMessage].
  - by exists [].
  - destruct (IH (foldl (onFeedEntity now) e (entity m))) as [routes Hr].
    exists ((messageRoutes m ++ routes)%list).
    by rewrite Hr, foldl_app, foldl_onFeedEntity.
  - by exists [].
Qed.



(** ** C1: one failing feed among several *)

Lemma mentioned_DELAYED now (d : Store) route :
  is_Some (d !! route) ∨ truthyInherited (prototype d) route = false ->
  exists r', mentioned now d route = Some r'
             ∧ status r' = DELAYED ∧ lastUpdated r' = now.
Proof.
  unfold mentioned. intros [[r ->] | Ht]; [eauto |].
  rewrite Ht. destruct (d !! route) as [r |]; eauto.
Qed.

Lemma refreshFeed_Skipped_inv
    (nstrDecoder nsssDecoder : list byte -> option FeedMessage)
    responses now d d' :
  refreshFeed nstrDecoder nsssDecoder responses now d = Skipped d' ->
  Exists transportFailure responses.
Proof.
  unfold refreshFeed.
  destruct (Promise_all _) as [results |] eqn:E.
  - by destruct (onResults now results _).
  - intros _. apply Promise_all_Rejected_inv in E.
    apply list_elem_of_fmap in E as (res & Hres & Hin).
    apply Exists_exists. exists res. split; [done |].
    by apply makeRequest_Rejected_iff with nstrDecoder nsssDecoder.
Qed.

(** C1, as the code has it.  [Promise.all] joins the requests: the cycle
    is skipped, the store left as it was, exactly when some request
    fails in transport; the answers of the other feeds are then unused.
    When every request resolves with a decoded message, the delay alerts
    of all the feeds are applied: every route named by one of them that
    has a record, or that has none and a name that is not read through
    [Object.prototype] (so that a record is created for it), holds a
    record with status [DELAYED], updated at [now]. *)
Theorem refreshFeed_all_or_nothing
    (nstrDecoder nsssDecoder : list byte -> option FeedMessage)
    (responses : list Response) (now : Z) (d : Store) :
  (refreshFeed nstrDecoder nsssDecoder responses now d = Skipped d
   <-> Exists transportFailure responses)
  ∧ (forall ms,
       Forall2 (delivers nstrDecoder nsssDecoder) responses ms ->
       (forall l, l ∈ SUBWAY_LINES -> is_Some (d !! l)) ->
       exists d',
         refreshFeed nstrDecoder nsssDecoder responses now d = Applied d'
         ∧ forall route,
             route ∈ delayRoutes ms ->
             is_Some (d !! route)
             ∨ (inherited route = false ∧ protoField route = false) ->
             exists r', d' !! route = Some r'
                        ∧ status r' = DELAYED ∧ lastUpdated r' = now).
Proof.
  split.
  - split; [apply refreshFeed_Skipped_inv | apply refreshFeed_transportFailure].
  - intros ms Hall Hrec.
    destruct (refreshFeed_Applied _ _ _ _ now d Hall Hrec)
      as (d' & Hd' & Hl & _).
    exists d'. split; [done |]. intros route Hin Hside.
    rewrite Hl, (bool_decide_eq_true_2 _ Hin).
    + apply mentioned_DELAYED. destruct Hside as [? | [? ?]]; [by left |].
      right. by apply protoField_false_inheritedValue.
    + destruct Hside as [? | [_ ?]]; [by left | by right; left].
Qed.

Lemma refreshFeed_all_or_nothing_witness :
  refreshFeed Sample.decoder Sample.noDecoder
    [HttpResponse 500 []; Sample.ok x01] 2000 (DataCache 0)
  = Skipped (DataCache 0)
  ∧ exists d',
      refreshFeed Sample.decoder Sample.noDecoder
        [Sample.ok x00; Sample.ok x01] 2000 (DataCache 0) = Applied d'
      ∧ forall route,
          route ∈ delayRoutes [Sample.noAlerts; Sample.acceptedOnA] ->
          is_Some (DataCache 0 !! route)
          ∨ (inherited route = false ∧ protoField route = false) ->
          exists r', d' !! route = Some r'
                     ∧ status r' = DELAYED ∧ lastUpdated r' = 2000.
Proof.
  split.
  - apply (refreshFeed_all_or_nothing Sample.decoder Sample.noDecoder
             [HttpResponse 500 []; Sample.ok x01] 2000 (DataCache 0)).
    apply Exists_cons_hd. cbn. lia.
  - apply (refreshFeed_all_or_nothing Sample.decoder Sample.noDecoder
             [Sample.ok x00; Sample.ok x01] 2000 (DataCache 0)).
    + repeat constructor.
    + apply DataCache_tracked.
Defined.

(** C1, as stated, fails.  Two feeds are polled at clock 2000: the first
    answers 500, the second answers 200 with a delay alert on A.  The
    cycle leaves the store untouched: A keeps its record of clock 0 and
    no line is advanced.  With a first feed that answers 200 without
    alerts, the same cycle marks A delayed and advances the lines: the
    failed feed does not count as a feed without alerts. *)
Lemma refreshFeed_one_failure_discards_the_rest :
  let d := DataCache 0 in
  let failed := store_of (refreshFeed Sample.decoder Sample.noDecoder
                  [HttpResponse 500 []; Sample.ok x01] 2000 d) in
  let empty := store_of (refreshFeed Sample.decoder Sample.noDecoder
                  [Sample.ok x00; Sample.ok x01] 2000 d) in
  failed = d
  ∧ failed !! "A" = Some {| activeTime := 0; undelayedTime := 0;
                            lastUpdated := 0; status := NOT_DELAYED |}
  ∧ empty !! "A" = Some {| activeTime := 2000; undelayedTime := 0;
                           lastUpdated := 2000; status := DELAYED |}
  ∧ failed ≠ empty.
Proof.
  cbv zeta.
  assert (H : refreshFeed Sample.decoder Sample.noDecoder
                [HttpResponse 500 []; Sample.ok x01] 2000 (DataCache 0)
              = Skipped (DataCache 0)).
  { apply refreshFeed_transportFailure, Exists_cons_hd. cbn. lia. }
  rewrite H. cbn [store_of].
  split; [done |]. split; [by vm_compute |]. split; [by vm_compute |].
  intros Heq. apply (f_equal (fun m : Store => m !! "A")) in Heq.
  vm_compute in Heq. discriminate Heq.
Qed.

(** ** C2: which headers count as delay alerts *)

Lemma canonicalize_backspace c :
  canonicalize c = backspace -> c = backspace.
Proof.
  destruct c as [[] [] [] [] [] [] [] []]; vm_compute; congruence.
Qed.

(** A header the code classifies as a delay alert has U+0008 as its
    seventh character. *)
Lemma isDelayHeader_backspace alertHeader :
  isDelayHeader alertHeader = true -> String.get 6 alertHeader = Some backspace.
Proof.
  unfold isDelayHeader, search_delaysRegExp. intros H.
  apply andb_true_iff in H as [_ H].
  destruct (matchLiteral delaysRegExp_literal alertHeader) eqn:M;
    [| discriminate H].
  clear H.
  let lit := eval vm_compute in delaysRegExp_literal in
    change delaysRegExp_literal with lit in M.
  repeat (destruct alertHeader as [| ? alertHeader]; [discriminate M |];
          cbn [matchLiteral] in M;
          match type of M with
          | (if ?b then _ else _) = true =>
              destruct b eqn:?; [| discriminate M]
          end).
  cbn [String.get]. f_equal.
  match goal with
  | E : Ascii.eqb _ (canonicalize ?c) = true |- ?c = _ =>
      apply Ascii.eqb_eq in E; symmetry in E;
      by apply canonicalize_backspace
  end.
Qed.

(** C2 on the code.  The header "Delays" begins with the token it is
    meant to be matched by, yet the test of lines 122 / 406 rejects it,
    and a cycle whose only alert carries it on route A leaves A not
    delayed.  The header with U+0008 after the token is accepted. *)
Theorem Delays_header_not_classified :
  isDelayHeader "Delays" = false
  ∧ isDelayHeader "delays affecting the A line" = false
  ∧ isDelayHeader Sample.acceptedHeader = true
  ∧ status <$> store_of (refreshFeed Sample.decoder Sample.noDecoder
                           [Sample.ok x02] 2000 (DataCache 0)) !! "A"
    = Some NOT_DELAYED.
Proof. repeat split; by vm_compute. Qed.

(** ** C3: a payload neither schema decodes *)

(** As soon as one request resolves with the [{}] of the failed decode,
    the callback throws; the lines without alert are not advanced. *)
Lemma onResults_EmptyObject now results e :
  EmptyObject ∈ results ->
  exists e', onResults now results e = Throw e'.
Proof.
  intros H. unfold onResults.
  assert (G : exists e', forEach (onFeedMessage now) results e = Throw e').
  { revert e. induction results as [| [m |] results IH]; intros e.
    - by apply elem_of_nil in H.
    - apply elem_of_cons in H as [H | H]; [discriminate H |].
      cbn [forEach onFeedMessage]. by apply IH.
    - cbn [forEach onFeedMessage]. eauto. }
  destruct G as [e' ->]. eauto.
Qed.

Lemma refreshFeed_undecodable
    (nstrDecoder nsssDecoder : list byte -> option FeedMessage)
    (res : Response) (now : Z) (d : Store) :
  makeRequest nstrDecoder nsssDecoder res = Resolved EmptyObject ->
  refreshFeed nstrDecoder nsssDecoder [res] now d = Faulted d.
Proof. intros H. unfold refreshFeed. cbn [map Promise_all]. by rewrite H. Qed.

(** C3 on the code.  One feed answers 200 at clock 59000 with a body
    that neither decoder accepts: the callback throws on the [{}] and the
    cycle ends with the store untouched, line 1 still at [activeTime] 0.
    The cycle whose feed decodes to a message without alerts advances
    line 1 to 59000. *)
Theorem undecodable_payload_faults_cycle :
  let d := DataCache 0 in
  makeRequest Sample.decoder Sample.noDecoder (Sample.ok xff)
  = Resolved EmptyObject
  ∧ refreshFeed Sample.decoder Sample.noDecoder [Sample.ok xff] 59000 d
    = Faulted d
  ∧ store_of (refreshFeed Sample.decoder Sample.noDecoder
                [Sample.ok xff] 59000 d) !! "1"
    = Some {| activeTime := 0; undelayedTime := 0; lastUpdated := 0;
              status := NOT_DELAYED |}
  ∧ store_of (refreshFeed Sample.decoder Sample.noDecoder
                [Sample.ok x00] 59000 d) !! "1"
    = Some {| activeTime := 59000; undelayedTime := 59000;
              lastUpdated := 59000; status := NOT_DELAYED |}.
Proof. repeat split; by vm_compute. Qed.

(** ** Object.keys lists the own keys *)

Lemma insertIndex_elem k x l : x ∈ insertIndex k l <-> x = k ∨ x ∈ l.
Proof.
  induction l as [| y l IH]; cbn [insertIndex].
  - rewrite elem_of_cons, elem_of_nil. tauto.
  - destruct (fst k <=? fst y)%N.
    + by rewrite elem_of_cons.
    + rewrite !elem_of_cons, IH. tauto.
Qed.

Lemma sortIndices_elem x l : x ∈ sortIndices l <-> x ∈ l.
Proof.
  unfold sortIndices. induction l as [| y l IH]; cbn [foldr]; [done |].
  by rewrite insertIndex_elem, elem_of_cons, IH.
Qed.

Lemma Object_keys_elem (o : LineStatus) key :
  key ∈ Object_keys o <-> key ∈ map fst o.
Proof.
  unfold Object_keys, indexKeys, nameKeys.
  rewrite elem_of_app, list_elem_of_filter. split.
  - intros [H | [_ H]]; [| done].
    apply list_elem_of_fmap in H as ([n k] & -> & H).
    apply sortIndices_elem, list_elem_of_omap in H as (k' & Hin & Hk').
    destruct (arrayIndex k'); [| done]. by injection Hk' as _ <-.
  - intros H. destruct (arrayIndex key) as [n |] eqn:E; [left | by right].
    apply list_elem_of_fmap. exists (n, key). split; [done |].
    apply sortIndices_elem, list_elem_of_omap. exists key.
    by rewrite E.
Qed.

Lemma getJudgment_None (o : LineStatus) key :
  getJudgment o key = None <-> key ∉ map fst o.
Proof.
  induction o as [| [k v] o IH]; cbn [getJudgment map fst].
  - split; [intros _; apply not_elem_of_nil | done].
  - rewrite not_elem_of_cons, <- IH.
    destruct (String.eqb k key) eqn:E.
    + apply String.eqb_eq in E. split; [done | by intros [? _]].
    + apply String.eqb_neq in E. split; [by intros ? | by intros [_ ?]].
Qed.

(** ** The walk of scrapePage judges single characters *)

Lemma forEach_Normal_inv {A S} (body : A -> S -> Completion S)
    (Q : A -> Prop) (P : S -> Prop) (l : list A) :
  (forall x s s', Q x -> P s -> body x s = Normal s' -> P s') ->
  Forall Q l ->
  forall s s', P s -> forEach body l s = Normal s' -> P s'.
Proof.
  intros Hbody HQ. induction HQ as [| x l Hx _ IH]; intros s s' Hs;
    cbn [forEach].
  - by intros [= <-].
  - destruct (body x s) as [s1 | s1] eqn:E; [| done].
    apply IH. by apply (Hbody x s s1).
Qed.

Lemma getJudgment_assign key j (o : LineStatus) key' :
  getJudgment (assign key j o) key' =
    if String.eqb key key' then Some j else getJudgment o key'.
Proof.
  induction o as [| [k v] o IH]; cbn [assign getJudgment]; [done |].
  destruct (String.eqb k key) eqn:E; cbn [getJudgment].
  - apply String.eqb_eq in E as ->. by destruct (String.eqb key key').
  - rewrite IH. destruct (String.eqb k key') eqn:E'; [| done].
    destruct (String.eqb key key') eqn:E2; [| done].
    apply String.eqb_eq in E2 as ->. congruence.
Qed.

(** What a node that does not throw does to the walk. *)
Lemma onNode_Normal node w w' :
  onNode node w = Normal w' ->
  (lineStatus w' = lineStatus w
   ∨ exists nm line,
       name node = Some nm ∧ lineMatch nm = Some line
       ∧ lineStatus w' =
           assign line (if bool_decide (heading w' = Some "Delays")
                        then delayed else undelayed) (lineStatus w))
  ∧ (heading w' = heading w ∨ heading w' = Some ""
     ∨ heading w' = name node).
Proof.
  unfold onNode.
  destruct (String.eqb (role node) "heading" && nameIs node "Service Status").
  { intros [= <-]. cbn. by split; left. }
  destruct (serviceStatusSection w); [| intros [= <-]; by split; left].
  set (h := if String.eqb (role node) "heading" then _ else _).
  assert (Hh : h = heading w ∨ h = Some "" ∨ h = name node).
  { subst h. destruct (String.eqb (role node) "heading"); [| by left].
    case_bool_decide; [by right; right | by right; left]. }
  destruct (truthy h && String.eqb (role node) "button").
  - destruct (name node) as [nm |] eqn:En; [| done].
    destruct (lineMatch nm) as [line |] eqn:El; intros [= <-]; cbn.
    + split; [right; eauto | done].
    + split; [by left | done].
  - intros [= <-]. cbn. split; [by left | done].
Qed.

Lemma lineMatch_single nm line :
  lineMatch nm = Some line -> String.length line = 1%nat.
Proof.
  unfold lineMatch. destruct (_ <? _)%nat; [done |].
  destruct (get 12 _) as [c |]; [| done].
  destruct (_ && _); [| done]. by intros [= <-].
Qed.

Lemma scrapePage_single_character page lineStatus line :
  scrapePage page = Resolved lineStatus ->
  is_Some (getJudgment lineStatus line) -> String.length line = 1%nat.
Proof.
  unfold scrapePage. destruct page as [| [children |]]; try done.
  destruct (forEach onNode children _) as [w |] eqn:E; [| done].
  intros [= <-]. revert line.
  apply (forEach_Normal_inv onNode (fun _ => True)
           (fun w => forall line, is_Some (getJudgment (lineStatus w) line) ->
                                  String.length line = 1%nat)
           children) with (s := mkWalk false (Some "") []) (s' := w);
    [| by apply Forall_forall | by intros line [? ?] | done].
  intros node s s' _ Hs Hnode line.
  destruct (onNode_Normal _ _ _ Hnode) as [[-> | (nm & l & _ & Hl & ->)] _];
    [apply Hs |].
  rewrite getJudgment_assign. destruct (String.eqb l line) eqn:El.
  - apply String.eqb_eq in El as <-. intros _. by apply lineMatch_single with nm.
  - apply Hs.
Qed.

Lemma getJudgment_Some_elem (o : LineStatus) key :
  key ∈ Object_keys o -> is_Some (getJudgment o key).
Proof.
  intros H. apply Object_keys_elem in H.
  destruct (getJudgment o key) eqn:E; [eauto |].
  by apply getJudgment_None in E.
Qed.

(** ** One scrape cycle *)

Lemma writeScraped_lookup now j line (d : Store) key :
  writeScraped now j line d !! key = d !! key.
Proof. unfold writeScraped. by destruct (String.eqb line "__proto__"). Qed.

Lemma writeScraped_prototype now j line (d : Store) :
  line ≠ "__proto__" -> prototype (writeScraped now j line d) = prototype d.
Proof.
  intros H. unfold writeScraped.
  destruct (String.eqb line "__proto__") eqn:E; [| done].
  by apply String.eqb_eq in E.
Qed.

Lemma onScrapedLine_lookup_eq now o d line :
  onScrapedLine now o d line !! line = scraped now o d line.
Proof.
  unfold onScrapedLine, scraped, getProperty, truthyInherited.
  destruct (d !! line) as [r |] eqn:E.
  - by rewrite store_lookup_insert_eq.
  - destruct (inheritedValue (prototype d) line) eqn:Ei;
      rewrite ?store_lookup_insert_eq, ?writeScraped_lookup; try done.
    unfold inheritedValue in Ei. repeat case_match; done.
Qed.

Lemma onScrapedLine_lookup_ne now o d line key :
  key ≠ line -> onScrapedLine now o d line !! key = d !! key.
Proof.
  intros Hne. unfold onScrapedLine.
  destruct (getProperty d line);
    by rewrite ?store_lookup_insert_ne, ?writeScraped_lookup.
Qed.

Lemma onScrapedLine_prototype now o d line :
  line ≠ "__proto__" -> prototype (onScrapedLine now o d line) = prototype d.
Proof.
  intros Hne. unfold onScrapedLine.
  destruct (getProperty d line);
    by rewrite ?prototype_insert, ?writeScraped_prototype.
Qed.

Lemma scraped_twice now o d line :
  scraped now o (onScrapedLine now o d line) line = scraped now o d line.
Proof.
  unfold scraped at 1. rewrite onScrapedLine_lookup_eq. unfold scraped.
  destruct (d !! line) as [r |].
  - by rewrite markScraped_twice.
  - destruct (truthyInherited (prototype d) line) eqn:Ht.
    + destruct (String.eqb line "__proto__") eqn:E.
      * apply String.eqb_eq in E as ->. done.
      * apply String.eqb_neq in E. by rewrite onScrapedLine_prototype, Ht.
    + by rewrite markScraped_twice.
Qed.

Lemma foldl_onScrapedLine now o lines : forall d key,
  "__proto__" ∉ lines ->
  foldl (onScrapedLine now o) d lines !! key =
    if bool_decide (key ∈ lines) then scraped now o d key else d !! key.
Proof.
  induction lines as [| x lines IH]; intros d key Hnin; [done |].
  apply not_elem_of_cons in Hnin as [Hx Hnin].
  cbn [foldl]. rewrite IH by done. destruct (decide (key = x)) as [-> | Hne].
  - rewrite bool_decide_cons_eq, scraped_twice.
    case_bool_decide; [done |]. apply onScrapedLine_lookup_eq.
  - rewrite bool_decide_cons_ne by done.
    unfold scraped.
    by rewrite !onScrapedLine_lookup_ne, onScrapedLine_prototype by done.
Qed.

Lemma foldl_onScrapedLine_prototype now o lines : forall d,
  "__proto__" ∉ lines ->
  prototype (foldl (onScrapedLine now o) d lines) = prototype d.
Proof.
  induction lines as [| x lines IH]; intros d Hnin; [done |].
  apply not_elem_of_cons in Hnin as [Hx Hnin].
  cbn [foldl]. rewrite IH by done. by apply onScrapedLine_prototype.
Qed.

(** The store after a cycle on a scraped snapshot, key by key.  The
    keys of a snapshot are single characters, so the cycle writes
    nothing on [Object.prototype]. *)
Lemma refreshScrape_Applied page lineStatus now d :
  scrapePage page = Resolved lineStatus ->
  exists d',
    refreshScrape page now d = Applied d'
    ∧ (forall key,
         d' !! key =
           match getJudgment lineStatus key with
           | Some _ => scraped now lineStatus d key
           | None => d !! key
           end)
    ∧ prototype d' = prototype d.
Proof.
  intros Hp. unfold refreshScrape. rewrite Hp.
  assert (Hnin : "__proto__" ∉ Object_keys lineStatus).
  { intros Hin. apply getJudgment_Some_elem in Hin.
    by apply (scrapePage_single_character page) in Hin. }
  eexists. split; [done |]. split.
  - intros key. rewrite foldl_onScrapedLine by done.
    destruct (getJudgment lineStatus key) as [j |] eqn:E.
    + rewrite bool_decide_eq_true_2; [done |].
      apply Object_keys_elem.
      destruct (decide (key ∈ map fst lineStatus)); [done |].
      apply getJudgment_None in n. congruence.
    + rewrite bool_decide_eq_false_2; [done |].
      rewrite Object_keys_elem. by apply getJudgment_None.
  - by apply foldl_onScrapedLine_prototype.
Qed.

(** ** C5: a line the scraped snapshot does not judge *)

(** C5, as the code has it.  The callback of the scrape visits the keys
    of the snapshot only: after a cycle whose scrape resolved, a line the
    snapshot does not judge holds exactly what it held: status,
    [activeTime], [undelayedTime] and [lastUpdated] are those of before
    the cycle, the elapsed interval is not accounted.  In particular a
    cycle with an empty snapshot changes no record. *)
Theorem refreshScrape_unjudged_line
    (page : Page) (lineStatus : LineStatus) (now : Z) (d : Store)
    (line : string) :
  scrapePage page = Resolved lineStatus ->
  (getJudgment lineStatus line = None ->
     store_of (refreshScrape page now d) !! line = d !! line)
  ∧ (lineStatus = [] -> refreshScrape page now d = Applied d).
Proof.
  intros Hp. split.
  - intros Hj.
    destruct (refreshScrape_Applied page lineStatus now d Hp)
      as (d' & -> & Hl & _).
    cbn [store_of]. by rewrite Hl, Hj.
  - intros ->. unfold refreshScrape. by rewrite Hp.
Qed.

Lemma refreshScrape_unjudged_line_witness :
  (getJudgment [("A", delayed); ("C", undelayed)] "1" = None ->
     store_of (refreshScrape Sample.statusPage 500 (DataCache 0)) !! "1"
     = DataCache 0 !! "1")
  ∧ ([("A", delayed); ("C", undelayed)] = [] ->
     refreshScrape Sample.statusPage 500 (DataCache 0)
     = Applied (DataCache 0)).
Proof.
  apply (refreshScrape_unjudged_line Sample.statusPage
           [("A", delayed); ("C", undelayed)] 500 (DataCache 0) "1").
  reflexivity.
Defined.

(** C5, as stated, fails.  Line 1 is created at clock 0; at clock 500 a
    scrape resolves with an empty snapshot.  The cycle ends normally and
    the record of line 1 still reads [activeTime] 0 and [lastUpdated] 0,
    where the claim has 500 for both.  The same holds when the snapshot
    judges other lines (A and C) but not line 1. *)
Lemma refreshScrape_empty_snapshot_advances_nothing :
  let d := DataCache 0 in
  scrapePage Sample.blankPage = Resolved []
  ∧ refreshScrape Sample.blankPage 500 d = Applied d
  ∧ d !! "1" = Some {| activeTime := 0; undelayedTime := 0;
                       lastUpdated := 0; status := NOT_DELAYED |}
  ∧ scrapePage Sample.statusPage = Resolved [("A", delayed); ("C", undelayed)]
  ∧ store_of (refreshScrape Sample.statusPage 500 d) !! "1"
    = Some {| activeTime := 0; undelayedTime := 0;
              lastUpdated := 0; status := NOT_DELAYED |}
  ∧ activeTime <$> store_of (refreshScrape Sample.blankPage 500 d) !! "1"
    ≠ Some (0 + (500 - 0))
  ∧ lastUpdated <$> store_of (refreshScrape Sample.blankPage 500 d) !! "1"
    ≠ Some 500.
Proof.
  cbv zeta. repeat split; by vm_compute.
Qed.

(** ** Every write advances the accounting *)

Lemma upTo_mono t now d : t <= now -> upTo t d -> upTo now d.
Proof. intros Hle H key r Hr. destruct (H key r Hr). split; [done | lia]. Qed.

Lemma advances_refl d : advances d d.
Proof. intros key r Hr. exists r. repeat split; [done | lia | lia]. Qed.

Lemma advances_trans d1 d2 d3 :
  advances d1 d2 -> advances d2 d3 -> advances d1 d3.
Proof.
  intros H12 H23 key r Hr.
  destruct (H12 key r Hr) as (r2 & Hr2 & ? & ?).
  destruct (H23 key r2 Hr2) as (r3 & Hr3 & ? & ?).
  exists r3. repeat split; [done | lia | lia].
Qed.

Lemma Step_refl now d : Step now d d.
Proof. intros H. split; [done | apply advances_refl]. Qed.

Lemma Step_trans now d1 d2 d3 :
  Step now d1 d2 -> Step now d2 d3 -> Step now d1 d3.
Proof.
  intros H12 H23 H1. destruct (H12 H1) as [H2 A12].
  destruct (H23 H2) as [H3 A23]. split; [done |].
  by apply advances_trans with d2.
Qed.

Lemma markDelayed_advancing now : advancing now (markDelayed now).
Proof. intros r [? ?] ?. unfold wellAccounted, markDelayed; cbn. lia. Qed.

Lemma markUnseen_advancing now : advancing now (markUnseen now).
Proof.
  intros [a u l [|]] [? ?] ?; unfold wellAccounted, markUnseen in *;
    cbn in *; lia.
Qed.

Lemma markScraped_advancing now j : advancing now (markScraped now j).
Proof.
  intros r [? ?] ?. unfold wellAccounted.
  destruct (markScraped_cases now j r) as (-> & -> & -> & _).
  destruct j as [[|] |]; lia.
Qed.

Lemma initLineData_upTo now :
  wellAccounted (initLineData now) ∧ lastUpdated (initLineData now) <= now.
Proof. unfold wellAccounted; cbn. lia. Qed.

Lemma Step_update now f d key r :
  advancing now f -> d !! key = Some r -> Step now d (<[ key := f r ]> d).
Proof.
  intros Hf Hr Hd. destruct (Hd key r Hr) as [Hw Hl].
  destruct (Hf r Hw Hl) as (? & ? & ? & ?). split.
  - intros k x. destruct (decide (k = key)) as [-> | Hne].
    + rewrite store_lookup_insert_eq. by intros [= <-].
    + rewrite store_lookup_insert_ne by done. apply Hd.
  - intros k x Hx. destruct (decide (k = key)) as [-> | Hne].
    + rewrite store_lookup_insert_eq. exists (f r).
      assert (x = r) as -> by congruence. done.
    + rewrite store_lookup_insert_ne by done. exists x.
      repeat split; [done | lia | lia].
Qed.

Lemma Step_create now f d key :
  advancing now f -> d !! key = None ->
  Step now d (<[ key := f (initLineData now) ]> d).
Proof.
  intros Hf Hr Hd. destruct (initLineData_upTo now) as [Hw Hl].
  destruct (Hf _ Hw Hl) as (? & ? & _). split.
  - intros k x. destruct (decide (k = key)) as [-> | Hne].
    + rewrite store_lookup_insert_eq. by intros [= <-].
    + rewrite store_lookup_insert_ne by done. apply Hd.
  - intros k x Hx. destruct (decide (k = key)) as [-> | Hne];
      [congruence |].
    rewrite store_lookup_insert_ne by done. exists x.
    repeat split; [done | lia | lia].
Qed.

Lemma Step_same now (d d' : Store) :
  (forall key, d' !! key = d !! key) -> Step now d d'.
Proof.
  intros H Hd. split.
  - intros key r. rewrite H. apply Hd.
  - intros key r Hr. exists r. rewrite H. repeat split; [done | lia | lia].
Qed.

Lemma Step_mention now e route :
  Step now (lineData e) (lineData (mention now e route)).
Proof.
  unfold mention, getProperty.
  destruct (lineData e !! route) as [r |] eqn:E; cbn [lineData].
  - by apply Step_update; [apply markDelayed_advancing |].
  - destruct (inheritedValue (prototype (lineData e)) route) eqn:Ei;
      cbn [lineData];
      try (by apply Step_create; [apply markDelayed_advancing |]);
      try apply Step_refl.
    + by apply inheritedValue_not_Own in Ei.
    + apply Step_same. intros key. apply writeDelayed_lookup.
Qed.

Lemma Step_mentions now routes : forall e,
  Step now (lineData e) (lineData (foldl (mention now) e routes)).
Proof.
  induction routes as [| x routes IH]; intros e; cbn [foldl].
  - apply Step_refl.
  - eapply Step_trans; [apply Step_mention | apply IH].
Qed.

Lemma Step_onSubwayLine now lineId e :
  Step now (lineData e) (lineData (completed (onSubwayLine now lineId e))).
Proof.
  unfold onSubwayLine. destruct (seen e lineId); [apply Step_refl |].
  unfold getProperty. destruct (lineData e !! lineId) as [r |] eqn:E.
  - by apply Step_update; [apply markUnseen_advancing |].
  - destruct (inheritedValue (prototype (lineData e)) lineId) eqn:Ei;
      try apply Step_refl.
    by apply inheritedValue_not_Own in Ei.
Qed.

Lemma Step_forEach {A} now (body : A -> Env -> Completion Env) l :
  (forall x e, Step now (lineData e) (lineData (completed (body x e)))) ->
  forall e, Step now (lineData e) (lineData (completed (forEach body l e))).
Proof.
  intros Hbody. induction l as [| x l IH]; intros e; cbn [forEach].
  - apply Step_refl.
  - specialize (Hbody x e). destruct (body x e) as [e' | e']; [| done].
    eapply Step_trans; [exact Hbody | apply IH].
Qed.

Lemma Step_onResults now results e :
  Step now (lineData e) (lineData (completed (onResults now results e))).
Proof.
  unfold onResults.
  destruct (forEach_onFeedMessage_mentions now results e) as [routes Hr].
  pose proof (Step_mentions now routes e) as H1. rewrite <- Hr in H1.
  destruct (forEach (onFeedMessage now) results e) as [e' | e']; [| done].
  eapply Step_trans; [exact H1 |].
  apply Step_forEach. intros x e0. apply Step_onSubwayLine.
Qed.

Lemma Step_onScrapedLine now o d line :
  Step now d (onScrapedLine now o d line).
Proof.
  unfold onScrapedLine, getProperty.
  destruct (d !! line) as [r |] eqn:E.
  - by apply Step_update; [apply markScraped_advancing |].
  - destruct (inheritedValue (prototype d) line) eqn:Ei;
      try (by apply Step_create; [apply markScraped_advancing |]);
      try apply Step_refl.
    + by apply inheritedValue_not_Own in Ei.
    + apply Step_same. intros key. apply writeScraped_lookup.
Qed.

Lemma Step_refreshScrape page now d :
  Step now d (store_of (refreshScrape page now d)).
Proof.
  unfold refreshScrape. destruct (scrapePage page) as [o |];
    [| apply Step_refl]. cbn [store_of].
  generalize (Object_keys o). intros keys. revert d.
  induction keys as [| x keys IH]; intros d; cbn [foldl].
  - apply Step_refl.
  - eapply Step_trans; [apply Step_onScrapedLine | apply IH].
Qed.

Section Cycles.

Variable nstrDecoder : list byte -> option FeedMessage.
Variable nsssDecoder : list byte -> option FeedMessage.

Lemma Step_refreshFeed responses now d :
  Step now d (store_of (refreshFeed nstrDecoder nsssDecoder responses now d)).
Proof.
  unfold refreshFeed.
  destruct (Promise_all _) as [results |]; [| apply Step_refl].
  pose proof (Step_onResults now results (mkEnv ∅ d)) as H.
  by destruct (onResults now results (mkEnv ∅ d)).
Qed.

Lemma Step_refreshData sourceIsGtfsApi up d :
  Step (currentTime up) d
    (store_of (refreshData nstrDecoder nsssDecoder sourceIsGtfsApi up d)).
Proof.
  unfold refreshData. destruct sourceIsGtfsApi.
  - apply Step_refreshFeed.
  - apply Step_refreshScrape.
Qed.

(** The records of a reachable store are well accounted and none was
    updated after the latest clock reading. *)
Lemma reachable_upTo t d :
  reachable nstrDecoder nsssDecoder t d -> upTo t d.
Proof.
  induction 1 as [startTime | t d flag up _ IH Hle | t d now _ IH Hle].
  - intros key r. rewrite DataCache_lookup. case_bool_decide; [| done].
    intros [= <-]. apply initLineData_upTo.
  - by apply Step_refreshData, upTo_mono with t.
  - by apply upTo_mono with t.
Qed.

(** No cycle removes a record: the lines of the enumeration keep theirs. *)
Lemma reachable_tracked t d lineId :
  reachable nstrDecoder nsssDecoder t d ->
  lineId ∈ SUBWAY_LINES -> is_Some (d !! lineId).
Proof.
  intros Hreach Hin.
  induction Hreach as [startTime | t d flag up Hreach IH Hle | t d now _ IH _].
  - by apply DataCache_tracked.
  - destruct IH as [r Hr].
    destruct (Step_refreshData flag up d) as [_ Ha].
    { apply upTo_mono with t; [done |]. by apply reachable_upTo. }
    destruct (Ha lineId r Hr) as (r' & -> & _). eauto.
  - done.
Qed.

Lemma fetchFailed_Skipped sourceIsGtfsApi up d :
  fetchFailed sourceIsGtfsApi up ->
  refreshData nstrDecoder nsssDecoder sourceIsGtfsApi up d = Skipped d.
Proof.
  unfold fetchFailed, refreshData. destruct sourceIsGtfsApi; intros H.
  - by apply refreshFeed_transportFailure.
  - unfold refreshScrape. by rewrite H.
Qed.

End Cycles.

(** ** C6: the counters stay ordered and activeTime never decreases *)

(** C6, with the condition it needs.  As long as no clock reading is
    earlier than the one before it, at every store reached from the
    constructor by cycles under either source (whatever their outcome)
    and queries, every record has
    [0 <= undelayedTime <= activeTime]; and through any further cycle
    every record is kept, with an [activeTime] no smaller. *)
Theorem counters_ordered_activeTime_monotone
    (nstrDecoder nsssDecoder : list byte -> option FeedMessage)
    (t : Z) (d : Store) :
  reachable nstrDecoder nsssDecoder t d ->
  (forall key r, d !! key = Some r ->
     0 <= undelayedTime r <= activeTime r)
  ∧ (forall sourceIsGtfsApi up key r,
       t <= currentTime up ->
       d !! key = Some r ->
       exists r',
         store_of (refreshData nstrDecoder nsssDecoder sourceIsGtfsApi up d)
           !! key = Some r'
         ∧ activeTime r <= activeTime r').
Proof.
  intros Hreach. pose proof (reachable_upTo _ _ _ _ Hreach) as Hd. split.
  - intros key r Hr. by destruct (Hd key r Hr).
  - intros flag up key r Hle Hr.
    destruct (Step_refreshData nstrDecoder nsssDecoder flag up d) as [_ Ha].
    { by apply upTo_mono with t. }
    destruct (Ha key r Hr) as (r' & Hr' & ? & _). eauto.
Qed.

Lemma counters_ordered_activeTime_monotone_witness :
  let d := store_of (refreshData Sample.decoder Sample.noDecoder true
                       Sample.feedCycle (DataCache 0)) in
  (forall key r, d !! key = Some r ->
     0 <= undelayedTime r <= activeTime r)
  ∧ (forall sourceIsGtfsApi up key r,
       currentTime Sample.feedCycle <= currentTime up ->
       d !! key = Some r ->
       exists r',
         store_of (refreshData Sample.decoder Sample.noDecoder
                     sourceIsGtfsApi up d) !! key = Some r'
         ∧ activeTime r <= activeTime r').
Proof.
  apply (counters_ordered_activeTime_monotone Sample.decoder Sample.noDecoder
           (currentTime Sample.feedCycle)).
  apply (reach_refreshData _ _ 0 (DataCache 0) true Sample.feedCycle).
  - apply reach_DataCache.
  - cbn. lia.
Defined.

(** C6, as stated, fails when the clock steps back.  The cache is built
    at clock 1000; a cycle on the feed, without alerts, reads the clock
    at 400.  Line 1 gets the delta of -600 on both counters:
    [undelayedTime] is below zero and [activeTime] has decreased from 0
    to -600. *)
Lemma clock_step_back_lowers_counters :
  let d := DataCache 1000 in
  let d' := store_of (refreshFeed Sample.decoder Sample.noDecoder
                        [Sample.ok x00] 400 d) in
  d !! "1" = Some {| activeTime := 0; undelayedTime := 0;
                     lastUpdated := 1000; status := NOT_DELAYED |}
  ∧ d' !! "1" = Some {| activeTime := -600; undelayedTime := -600;
                        lastUpdated := 400; status := NOT_DELAYED |}
  ∧ ~ (forall r, d' !! "1" = Some r -> 0 <= undelayedTime r <= activeTime r)
  ∧ ~ (forall r r', d !! "1" = Some r -> d' !! "1" = Some r' ->
                    activeTime r <= activeTime r').
Proof.
  cbv zeta. split; [by vm_compute |]. split; [by vm_compute |]. split.
  - intros H. specialize (H _ ltac:(vm_compute; reflexivity)). cbn in H. lia.
  - intros H.
    specialize (H _ _ ltac:(vm_compute; reflexivity)
                  ltac:(vm_compute; reflexivity)).
    cbn in H. lia.
Qed.

(** ** C8: getUptime on a line with a record *)

(** C8.  For a line with a record, [getUptime] at clock [now] takes
    [liveDelta = now - lastUpdated] and answers the baseline sentence
    when [activeTime + liveDelta < 1000]; otherwise it formats the
    quotient of [undelayedTime + d] by [activeTime + liveDelta], where [d]
    is [liveDelta] for a record with status [NOT_DELAYED] and 0
    otherwise. *)
Theorem getUptime_fraction (d : Store) (now : Z) (line : string)
    (r : LineRecord) :
  d !! line = Some r ->
  let liveDelta := now - lastUpdated r in
  let credit := match status r with
                | NOT_DELAYED => liveDelta
                | DELAYED => 0
                end in
  getUptime d now line =
    if activeTime r + liveDelta <? 1000 then Message NO_BASELINE
    else ToFixed3 (undelayedTime r + credit) (activeTime r + liveDelta).
Proof.
  intros Hr liveDelta credit. unfold getUptime.
  rewrite (getProperty_Own _ _ _ Hr). fold liveDelta.
  destruct (activeTime r + liveDelta <? 1000); [done |].
  subst credit. destruct (status r); [done |].
  by rewrite Z.add_0_r.
Qed.

Lemma getUptime_fraction_witness :
  getUptime (DataCache 0) 5000 "G" =
    if 0 + (5000 - 0) <? 1000 then Message NO_BASELINE
    else ToFixed3 (0 + (5000 - 0)) (0 + (5000 - 0)).
Proof.
  apply (getUptime_fraction (DataCache 0) 5000 "G" (initLineData 0)).
  reflexivity.
Defined.

(** ** C9: querying a line without record *)

(** A line without record under whose name nothing truthy is read
    through [Object.prototype] gets the not-found sentence from both
    queries. *)
Lemma queries_NOT_FOUND d now line :
  d !! line = None -> truthyInherited (prototype d) line = false ->
  getStatus d line = Message NOT_FOUND
  ∧ getUptime d now line = Message NOT_FOUND.
Proof.
  intros Hn Hi. unfold getStatus, getUptime.
  by destruct (getProperty_falsy _ _ Hn Hi) as [-> | ->].
Qed.

(** A name found on [Object.prototype] and without record passes the
    guard of both queries. *)
Lemma queries_inherited d now line :
  d !! line = None -> inherited line = true ->
  getStatus d line = InheritedStatus line ∧ getUptime d now line = NaNText.
Proof.
  intros Hn Hi. unfold getStatus, getUptime.
  by rewrite (getProperty_Builtin _ _ Hn Hi).
Qed.

(** C9 on the code.  The name "constructor" has no record in the store
    the constructor builds, yet [lineData["constructor"]] is the built-in
    [Object] inherited by the object literal, which is truthy: the guard
    of lines 179 / 196 does not fire, [getStatus] hands out the [status]
    property of that built-in and [getUptime] formats [NaN].  The name
    "ZZ" gets the not-found sentence from both. *)
Theorem queries_on_inherited_name :
  DataCache 0 !! "constructor" = None
  ∧ getStatus (DataCache 0) "constructor" = InheritedStatus "constructor"
  ∧ getUptime (DataCache 0) 5000 "constructor" = NaNText
  ∧ getStatus (DataCache 0) "constructor" ≠ Message NOT_FOUND
  ∧ getUptime (DataCache 0) 5000 "constructor" ≠ Message NOT_FOUND
  ∧ getStatus (DataCache 0) "ZZ" = Message NOT_FOUND
  ∧ getUptime (DataCache 0) 5000 "ZZ" = Message NOT_FOUND.
Proof. repeat split; by vm_compute. Qed.

(** ** A scheme for what every cycle keeps

    Whatever the three record updates keep, every cycle keeps, under
    either source and however it ends. *)

Section Preservation.

Variable now : Z.
Variable I : LineRecord -> Prop.
Variable R : LineRecord -> LineRecord -> Prop.

Hypothesis R_refl : forall r, R r r.
Hypothesis R_trans : forall r1 r2 r3, R r1 r2 -> R r2 r3 -> R r1 r3.
Hypothesis I_init : I (initLineData now).
Hypothesis I_markDelayed :
  forall r, I r -> I (markDelayed now r) ∧ R r (markDelayed now r).
Hypothesis I_markUnseen :
  forall r, I r -> I (markUnseen now r) ∧ R r (markUnseen now r).
Hypothesis I_markScraped :
  forall j r, I r -> I (markScraped now j r) ∧ R r (markScraped now j r).

Lemma Preserves_refl d : Preserves I R d d.
Proof. intros H. split; [done |]. intros key r Hr. eauto. Qed.

Lemma Preserves_trans d1 d2 d3 :
  Preserves I R d1 d2 -> Preserves I R d2 d3 -> Preserves I R d1 d3.
Proof.
  intros H12 H23 H1. destruct (H12 H1) as [H2 A12].
  destruct (H23 H2) as [H3 A23]. split; [done |].
  intros key r Hr. destruct (A12 key r Hr) as (r2 & Hr2 & ?).
  destruct (A23 key r2 Hr2) as (r3 & Hr3 & ?). eauto.
Qed.

Lemma Preserves_same (d d' : Store) :
  (forall key, d' !! key = d !! key) -> Preserves I R d d'.
Proof.
  intros H Hd. split.
  - intros key r. rewrite H. apply Hd.
  - intros key r Hr. exists r. rewrite H. eauto.
Qed.

Lemma Preserves_update f d key r :
  (forall r, I r -> I (f r) ∧ R r (f r)) ->
  d !! key = Some r -> Preserves I R d (<[ key := f r ]> d).
Proof.
  intros Hf Hr Hd. destruct (Hf r (Hd key r Hr)) as [? ?]. split.
  - intros k x. destruct (decide (k = key)) as [-> | Hne].
    + rewrite store_lookup_insert_eq. by intros [= <-].
    + rewrite store_lookup_insert_ne by done. apply Hd.
  - intros k x Hx. destruct (decide (k = key)) as [-> | Hne].
    + rewrite store_lookup_insert_eq. exists (f r).
      assert (x = r) as -> by congruence. done.
    + rewrite store_lookup_insert_ne by done. eauto.
Qed.

Lemma Preserves_create f d key :
  (forall r, I r -> I (f r) ∧ R r (f r)) ->
  d !! key = None -> Preserves I R d (<[ key := f (initLineData now) ]> d).
Proof.
  intros Hf Hr Hd. destruct (Hf _ I_init) as [? _]. split.
  - intros k x. destruct (decide (k = key)) as [-> | Hne].
    + rewrite store_lookup_insert_eq. by intros [= <-].
    + rewrite store_lookup_insert_ne by done. apply Hd.
  - intros k x Hx. destruct (decide (k = key)) as [-> | Hne];
      [congruence |].
    rewrite store_lookup_insert_ne by done. eauto.
Qed.

Lemma Preserves_mentions routes : forall e,
  Preserves I R (lineData e) (lineData (foldl (mention now) e routes)).
Proof.
  induction routes as [| x routes IH]; intros e; cbn [foldl].
  - apply Preserves_refl.
  - eapply Preserves_trans; [| apply IH].
    unfold mention, getProperty.
    destruct (lineData e !! x) as [r |] eqn:E; cbn [lineData].
    + apply (Preserves_update (markDelayed now)); [exact I_markDelayed | done].
    + destruct (inheritedValue (prototype (lineData e)) x) eqn:Ei;
        cbn [lineData];
        try (apply (Preserves_create (markDelayed now));
             [exact I_markDelayed | done]);
        try apply Preserves_refl.
      * by apply inheritedValue_not_Own in Ei.
      * apply Preserves_same. intros key. apply writeDelayed_lookup.
Qed.

Lemma Preserves_onSubwayLines lines : forall e,
  Preserves I R (lineData e)
    (lineData (completed (forEach (onSubwayLine now) lines e))).
Proof.
  induction lines as [| x lines IH]; intros e; cbn [forEach].
  - apply Preserves_refl.
  - assert (H : Preserves I R (lineData e)
                  (lineData (completed (onSubwayLine now x e)))).
    { unfold onSubwayLine. destruct (seen e x); [apply Preserves_refl |].
      unfold getProperty. destruct (lineData e !! x) as [r |] eqn:E.
      - apply (Preserves_update (markUnseen now)); [exact I_markUnseen | done].
      - destruct (inheritedValue (prototype (lineData e)) x) eqn:Ei;
          try apply Preserves_refl.
        by apply inheritedValue_not_Own in Ei. }
    destruct (onSubwayLine now x e) as [e' | e']; [| done].
    eapply Preserves_trans; [exact H | apply IH].
Qed.

Lemma Preserves_onResults results e :
  Preserves I R (lineData e) (lineData (completed (onResults now results e))).
Proof.
  unfold onResults.
  destruct (forEach_onFeedMessage_mentions now results e) as [routes Hr].
  pose proof (Preserves_mentions routes e) as H1. rewrite <- Hr in H1.
  destruct (forEach (onFeedMessage now) results e) as [e' | e']; [| done].
  eapply Preserves_trans; [exact H1 | apply Preserves_onSubwayLines].
Qed.

Lemma Preserves_refreshScrape page d :
  Preserves I R d (store_of (refreshScrape page now d)).
Proof.
  unfold refreshScrape. destruct (scrapePage page) as [o |];
    [| apply Preserves_refl]. cbn [store_of].
  generalize (Object_keys o). intros keys. revert d.
  induction keys as [| x keys IH]; intros d; cbn [foldl].
  - apply Preserves_refl.
  - eapply Preserves_trans; [| apply IH].
    unfold onScrapedLine, getProperty.
    destruct (d !! x) as [r |] eqn:E.
    + apply (Preserves_update (markScraped now (getJudgment o x)));
        [apply I_markScraped | done].
    + destruct (inheritedValue (prototype d) x) eqn:Ei;
        try (apply (Preserves_create (markScraped now (getJudgment o x)));
             [apply I_markScraped | done]);
        try apply Preserves_refl.
      * by apply inheritedValue_not_Own in Ei.
      * apply Preserves_same. intros key. apply writeScraped_lookup.
Qed.

Lemma Preserves_refreshFeed nstrDecoder nsssDecoder responses d :
  Preserves I R d
    (store_of (refreshFeed nstrDecoder nsssDecoder responses now d)).
Proof.
  unfold refreshFeed.
  destruct (Promise_all _) as [results |]; [| apply Preserves_refl].
  pose proof (Preserves_onResults results (mkEnv ∅ d)) as H.
  by destruct (onResults now results (mkEnv ∅ d)).
Qed.

End Preservation.

Lemma Preserves_refreshData
    (I : LineRecord -> Prop) (R : LineRecord -> LineRecord -> Prop)
    nstrDecoder nsssDecoder sourceIsGtfsApi up d :
  (forall r, R r r) ->
  (forall r1 r2 r3, R r1 r2 -> R r2 r3 -> R r1 r3) ->
  I (initLineData (currentTime up)) ->
  (forall r, I r -> I (markDelayed (currentTime up) r)
                    ∧ R r (markDelayed (currentTime up) r)) ->
  (forall r, I r -> I (markUnseen (currentTime up) r)
                    ∧ R r (markUnseen (currentTime up) r)) ->
  (forall j r, I r -> I (markScraped (currentTime up) j r)
                      ∧ R r (markScraped (currentTime up) j r)) ->
  Preserves I R d
    (store_of (refreshData nstrDecoder nsssDecoder sourceIsGtfsApi up d)).
Proof.
  intros. unfold refreshData. destruct sourceIsGtfsApi.
  - by apply Preserves_refreshFeed.
  - by apply Preserves_refreshScrape.
Qed.

(** ** C7: lastUpdated across cycles, and a cycle whose fetch fails *)

(** C7, with the condition it needs.  Whatever the source of a cycle and
    however it ends, every record is kept and its [lastUpdated] is
    either left as it was or set to the clock reading of the cycle, so
    it follows the clock.  As long as no clock reading is earlier than
    the one before it, from the constructor on, no cycle lowers the
    [lastUpdated] of a record.  A cycle whose fetch fails (some feed
    request fails in transport, or the scrape throws) is skipped and
    leaves the store as it was, whatever the clock. *)
Theorem lastUpdated_follows_clock_failed_fetch_noop
    (nstrDecoder nsssDecoder : list byte -> option FeedMessage)
    (sourceIsGtfsApi : bool) (up : Upstream) (t : Z) (d : Store) :
  let o := refreshData nstrDecoder nsssDecoder sourceIsGtfsApi up d in
  (forall key r, d !! key = Some r ->
     exists r', store_of o !! key = Some r'
                ∧ (lastUpdated r' = lastUpdated r
                   ∨ lastUpdated r' = currentTime up))
  ∧ (reachable nstrDecoder nsssDecoder t d ->
     t <= currentTime up ->
     forall key r, d !! key = Some r ->
       exists r', store_of o !! key = Some r'
                  ∧ lastUpdated r <= lastUpdated r')
  ∧ (fetchFailed sourceIsGtfsApi up -> o = Skipped d).
Proof.
  intros o.
  assert (Hkept : forall key r, d !! key = Some r ->
            exists r', store_of o !! key = Some r'
                       ∧ (lastUpdated r' = lastUpdated r
                          ∨ lastUpdated r' = currentTime up)).
  { destruct (Preserves_refreshData
                (fun _ => True)
                (fun r r' => lastUpdated r' = lastUpdated r
                             ∨ lastUpdated r' = currentTime up)
                nstrDecoder nsssDecoder sourceIsGtfsApi up d)
      as [_ Hrel]; try done.
    - by left.
    - intros r1 r2 r3 [H12 | H12] [H23 | H23]; [left | right | right | right];
        congruence.
    - intros r _. split; [done |]. by right.
    - intros r _. split; [done |]. by right.
    - intros j r _. split; [done |].
      destruct (markScraped_cases (currentTime up) j r) as (_ & -> & _).
      by right. }
  split; [done |]. split.
  - intros Hreach Hle key r Hr.
    destruct (Hkept key r Hr) as (r' & Hr' & Hl).
    exists r'. split; [done |].
    destruct (reachable_upTo _ _ _ _ Hreach key r Hr) as [_ ?].
    destruct Hl as [-> | ->]; lia.
  - apply fetchFailed_Skipped.
Qed.

Lemma lastUpdated_follows_clock_failed_fetch_noop_witness :
  (forall key r, DataCache 0 !! key = Some r ->
     exists r',
       store_of (refreshData Sample.decoder Sample.noDecoder true
                   Sample.feedCycle (DataCache 0)) !! key = Some r'
       ∧ lastUpdated r <= lastUpdated r')
  ∧ store_of (refreshData Sample.decoder Sample.noDecoder true
                Sample.feedCycle (DataCache 0)) !! "A"
    = Some {| activeTime := 2000; undelayedTime := 0; lastUpdated := 2000;
              status := DELAYED |}
  ∧ refreshData Sample.decoder Sample.noDecoder true Sample.failedCycle
      (DataCache 0) = Skipped (DataCache 0)
  ∧ refreshData Sample.decoder Sample.noDecoder false Sample.failedCycle
      (DataCache 0) = Skipped (DataCache 0).
Proof.
  split; [| split; [| split]].
  - apply (lastUpdated_follows_clock_failed_fetch_noop Sample.decoder
             Sample.noDecoder true Sample.feedCycle 0 (DataCache 0)).
    + apply reach_DataCache.
    + cbn. lia.
  - by vm_compute.
  - apply (lastUpdated_follows_clock_failed_fetch_noop Sample.decoder
             Sample.noDecoder true Sample.failedCycle 0 (DataCache 0)).
    apply Exists_cons_hd. cbn. lia.
  - apply (lastUpdated_follows_clock_failed_fetch_noop Sample.decoder
             Sample.noDecoder false Sample.failedCycle 0 (DataCache 0)).
    reflexivity.
Defined.

(** C7, as stated, fails when the clock steps back.  The cache is built
    at clock 1000; a cycle on the feed, with every request answered and
    no alert, reads the clock at 400.  Line 1 is updated at 400: its
    [lastUpdated] has decreased from 1000 to 400. *)
Lemma clock_step_back_lowers_lastUpdated :
  let d := DataCache 1000 in
  let up := {| responses := [Sample.ok x00]; page := Sample.blankPage;
               currentTime := 400 |} in
  let o := refreshData Sample.decoder Sample.noDecoder true up d in
  d !! "1" = Some {| activeTime := 0; undelayedTime := 0;
                     lastUpdated := 1000; status := NOT_DELAYED |}
  ∧ (exists d', o = Applied d')
  ∧ store_of o !! "1" = Some {| activeTime := -600; undelayedTime := -600;
                                lastUpdated := 400; status := NOT_DELAYED |}
  ∧ ~ (forall r r', d !! "1" = Some r -> store_of o !! "1" = Some r' ->
                    lastUpdated r <= lastUpdated r').
Proof.
  cbv zeta. split; [by vm_compute |]. split; [| split].
  - eexists. by vm_compute.
  - by vm_compute.
  - intros H.
    specialize (H _ _ ltac:(vm_compute; reflexivity)
                  ltac:(vm_compute; reflexivity)).
    cbn in H. lia.
Qed.

(** * Further properties *)

(** ** makeRequest and the outcome of a feed cycle *)

Lemma Promise_all_app {A} (ps1 ps2 : list (Settled A)) vs1 vs2 :
  Promise_all ps1 = Resolved vs1 -> Promise_all ps2 = Resolved vs2 ->
  Promise_all (ps1 ++ ps2)%list = Resolved (vs1 ++ vs2)%list.
Proof.
  revert vs1. induction ps1 as [| [a |] ps1 IH]; intros vs1; cbn.
  - by intros [= <-].
  - destruct (Promise_all ps1) as [l |] eqn:E; [| done].
    intros [= <-] H2. by rewrite (IH l eq_refl H2).
  - done.
Qed.

(** X1.  A cycle on the feed is skipped, the store untouched, exactly
    when some request fails in transport; in every other case the
    callback runs. *)
Theorem refreshFeed_Skipped_iff
    (nstrDecoder nsssDecoder : list byte -> option FeedMessage)
    (responses : list Response) (now : Z) (d : Store) :
  refreshFeed nstrDecoder nsssDecoder responses now d = Skipped d
  <-> Exists transportFailure responses.
Proof.
  split; [| apply refreshFeed_transportFailure].
  unfold refreshFeed.
  destruct (Promise_all _) as [results |] eqn:E.
  - by destruct (onResults now results _).
  - intros _. apply Promise_all_Rejected_inv in E.
    apply list_elem_of_fmap in E as (res & Hres & Hin).
    apply Exists_exists. exists res. split; [done |].
    by apply makeRequest_Rejected_iff with nstrDecoder nsssDecoder.
Qed.

Lemma forEach_onFeedMessage_throw now ms rest : forall e,
  forEach (onFeedMessage now) (map Decoded ms ++ EmptyObject :: rest)%list e
  = Throw (foldl (mention now) e (delayRoutes ms)).
Proof.
  induction ms as [| m ms IH]; intros e; cbn [map app forEach onFeedMessage];
    [done |].
  rewrite IH. unfold delayRoutes; cbn [map concat].
  by rewrite foldl_app, foldl_onFeedEntity.
Qed.

Lemma Promise_all_no_failure
    (nstrDecoder nsssDecoder : list byte -> option FeedMessage) responses :
  Forall (fun res => ¬ transportFailure res) responses ->
  exists results,
    Promise_all (map (makeRequest nstrDecoder nsssDecoder) responses)
    = Resolved results.
Proof.
  induction 1 as [| res responses Hres _ [results IH]]; cbn [map Promise_all].
  - eauto.
  - destruct (makeRequest nstrDecoder nsssDecoder res) as [m |] eqn:E.
    + rewrite IH. eauto.
    + by apply makeRequest_Rejected_iff in E.
Qed.

(** X2.  When every request resolves and the payload of one feed is
    undecodable, the callback throws at that feed: the lines named by
    the delay alerts of the feeds before it keep the marks already
    written, and every other record is left as it was, the lines without
    alert neither advanced nor recovered. *)
Theorem refreshFeed_fault_keeps_earlier_marks
    (nstrDecoder nsssDecoder : list byte -> option FeedMessage)
    (before : list Response) (ms : list FeedMessage) (res : Response)
    (after : list Response) (now : Z) (d : Store) :
  Forall2 (delivers nstrDecoder nsssDecoder) before ms ->
  makeRequest nstrDecoder nsssDecoder res = Resolved EmptyObject ->
  Forall (fun r => ¬ transportFailure r) after ->
  exists d',
    refreshFeed nstrDecoder nsssDecoder (before ++ res :: after)%list now d
    = Faulted d'
    ∧ (forall key r, key ∈ delayRoutes ms -> d !! key = Some r ->
         d' !! key = Some (markDelayed now r))
    ∧ (forall key, key ∉ delayRoutes ms -> d' !! key = d !! key).
Proof.
  intros Hbefore Hres Hafter.
  destruct (Promise_all_no_failure nstrDecoder nsssDecoder after Hafter)
    as [rest Hrest].
  unfold refreshFeed, onResults.
  rewrite map_app. cbn [map].
  rewrite (Promise_all_app _ _ (map Decoded ms) (EmptyObject :: rest)).
  - rewrite forEach_onFeedMessage_throw. eexists. split; [done |].
    cbn [lineData]. split.
    + intros key r Hin Hr. rewrite mentions_lookup by (left; cbn; eauto).
      rewrite bool_decide_eq_true_2 by done. unfold mentioned. cbn [lineData].
      by rewrite Hr.
    + intros key Hnin. by rewrite mentions_lookup_notin.
  - by apply Promise_all_delivers.
  - cbn [Promise_all]. by rewrite Hres, Hrest.
Qed.

Lemma refreshFeed_fault_keeps_earlier_marks_witness :
  exists d',
    refreshFeed Sample.decoder Sample.noDecoder
      ([Sample.ok x01] ++ Sample.ok xff :: [Sample.ok x00])%list 2000
      (DataCache 0)
    = Faulted d'
    ∧ (forall key r, key ∈ delayRoutes [Sample.acceptedOnA] ->
         DataCache 0 !! key = Some r ->
         d' !! key = Some (markDelayed 2000 r))
    ∧ (forall key, key ∉ delayRoutes [Sample.acceptedOnA] ->
         d' !! key = DataCache 0 !! key).
Proof.
  apply (refreshFeed_fault_keeps_earlier_marks Sample.decoder
           Sample.noDecoder [Sample.ok x01] [Sample.acceptedOnA]
           (Sample.ok xff) [Sample.ok x00] 2000 (DataCache 0)).
  - repeat constructor.
  - reflexivity.
  - repeat constructor; cbn; lia.
Defined.

(** X3.  The store a successful cycle on the feed leaves depends on the
    delay alerts only through the set of routes they name, as long as
    none of them names [__proto__]: neither the order of feeds, entities
    and routes nor a route named several times makes a difference. *)
Theorem refreshFeed_routes_as_set
    (nstrDecoder nsssDecoder : list byte -> option FeedMessage)
    (responses responses' : list Response) (ms ms' : list FeedMessage)
    (now : Z) (d : Store) :
  Forall2 (delivers nstrDecoder nsssDecoder) responses ms ->
  Forall2 (delivers nstrDecoder nsssDecoder) responses' ms' ->
  (forall key, key ∈ delayRoutes ms <-> key ∈ delayRoutes ms') ->
  "__proto__" ∉ delayRoutes ms ->
  (forall l, l ∈ SUBWAY_LINES -> is_Some (d !! l)) ->
  refreshFeed nstrDecoder nsssDecoder responses now d
  = refreshFeed nstrDecoder nsssDecoder responses' now d.
Proof.
  intros H H' Hset Hproto Hrec.
  assert (Hproto' : "__proto__" ∉ delayRoutes ms') by by rewrite <- Hset.
  destruct (refreshFeed_Applied _ _ _ _ now d H Hrec) as (d1 & -> & H1 & P1).
  destruct (refreshFeed_Applied _ _ _ _ now d H' Hrec) as (d2 & -> & H2 & P2).
  f_equal. apply store_eq.
  - intros key. rewrite H1, H2 by (by right; right; left).
    by rewrite (bool_decide_ext _ _ (Hset key)).
  - by rewrite P1, P2.
Qed.

Lemma refreshFeed_routes_as_set_witness :
  refreshFeed Sample.decoder Sample.noDecoder
    [Sample.ok x01; Sample.ok x00] 2000 (DataCache 0)
  = refreshFeed Sample.decoder Sample.noDecoder
      [Sample.ok x00; Sample.ok x01; Sample.ok x01] 2000 (DataCache 0).
Proof.
  apply (refreshFeed_routes_as_set Sample.decoder Sample.noDecoder
           [Sample.ok x01; Sample.ok x00]
           [Sample.ok x00; Sample.ok x01; Sample.ok x01]
           [Sample.acceptedOnA; Sample.noAlerts]
           [Sample.noAlerts; Sample.acceptedOnA; Sample.acceptedOnA]
           2000 (DataCache 0)).
  - repeat constructor.
  - repeat constructor.
  - intros key. vm_compute delayRoutes. rewrite !elem_of_cons. tauto.
  - apply (bool_decide_unpack _). by vm_compute.
  - apply DataCache_tracked.
Defined.

(** When a cycle names [__proto__], the order of the routes counts for
    the names [status] and [lastUpdated].  Named after [__proto__],
    [status] reads the string written on [Object.prototype] and gets no
    record; named before it, [status] gets a record.  The stores the two
    cycles leave differ. *)
Lemma refreshFeed_proto_then_status :
  let after := store_of (refreshFeed Sample3.decoder Sample.noDecoder
                           [Sample.ok x07] 2000 (DataCache 0)) in
  let before := store_of (refreshFeed Sample3.decoder Sample.noDecoder
                            [Sample.ok x08] 2000 (DataCache 0)) in
  (forall key, key ∈ delayRoutes [Sample3.protoThenStatus]
               <-> key ∈ delayRoutes [Sample3.statusThenProto])
  ∧ after !! "status" = None
  ∧ before !! "status"
    = Some {| activeTime := 0; undelayedTime := 0; lastUpdated := 2000;
              status := DELAYED |}
  ∧ getStatus after "status" = Message "DELAYED"
  ∧ prototype after
    = {| protoLastUpdated := Some 2000; protoStatus := Some DELAYED;
         protoUndelayedTime := false |}.
Proof.
  cbv zeta. split; [| by vm_compute].
  intros key. vm_compute delayRoutes. rewrite !elem_of_cons. tauto.
Qed.

(** X4.  A successful cycle on the feed deals with a name outside
    [SUBWAY_LINES] only when a delay alert names it.  A record under a
    name that no delay alert names is left exactly as it was, so it is
    neither advanced nor ever set back to [NOT_DELAYED].  A route named
    without record gets one created at [now], zeroed and [DELAYED],
    when its name is not a property name of [Object.prototype]: not one
    of the built-in names, under which no record is ever created, and
    not [status] or [lastUpdated], which a write through [__proto__]
    puts there. *)
Theorem refreshFeed_outside_enumeration
    (nstrDecoder nsssDecoder : list byte -> option FeedMessage)
    (responses : list Response) (ms : list FeedMessage) (now : Z)
    (d : Store) (key : string) :
  Forall2 (delivers nstrDecoder nsssDecoder) responses ms ->
  (forall l, l ∈ SUBWAY_LINES -> is_Some (d !! l)) ->
  key ∉ SUBWAY_LINES ->
  exists d',
    refreshFeed nstrDecoder nsssDecoder responses now d = Applied d'
    ∧ (key ∉ delayRoutes ms -> d' !! key = d !! key)
    ∧ (key ∈ delayRoutes ms -> d !! key = None ->
       inherited key = false -> protoField key = false ->
       d' !! key = Some {| activeTime := 0; undelayedTime := 0;
                           lastUpdated := now; status := DELAYED |})
    ∧ (d !! key = None -> inherited key = true -> d' !! key = None).
Proof.
  intros Hall Hrec Hout.
  destruct (refreshFeed_Applied _ _ _ _ now d Hall Hrec)
    as (d' & -> & Hl & _).
  exists d'. split; [done |]. split; [| split].
  - intros Hnin. rewrite Hl by (by right; right; right).
    rewrite bool_decide_eq_false_2 by done.
    by rewrite bool_decide_eq_false_2 by done.
  - intros Hin Hn Hi Hp. rewrite Hl by (by right; left).
    rewrite bool_decide_eq_true_2 by done.
    unfold mentioned. rewrite Hn, protoField_false_inheritedValue by done.
    unfold markDelayed; cbn. do 2 f_equal. lia.
  - intros Hn Hi.
    rewrite Hl by (right; left; by apply inherited_not_protoField).
    rewrite (bool_decide_eq_false_2 (key ∈ SUBWAY_LINES)) by done.
    unfold mentioned, truthyInherited.
    rewrite Hn, inheritedValue_inherited by done. by case_bool_decide.
Qed.

Lemma refreshFeed_outside_enumeration_witness :
  exists d',
    refreshFeed Sample2.decoder Sample.noDecoder [Sample.ok x04] 2000
      (DataCache 0) = Applied d'
    ∧ ("H" ∉ delayRoutes [Sample2.acceptedOnH] ->
       d' !! "H" = DataCache 0 !! "H")
    ∧ ("H" ∈ delayRoutes [Sample2.acceptedOnH] ->
       DataCache 0 !! "H" = None ->
       inherited "H" = false -> protoField "H" = false ->
       d' !! "H" = Some {| activeTime := 0; undelayedTime := 0;
                           lastUpdated := 2000; status := DELAYED |})
    ∧ (DataCache 0 !! "H" = None -> inherited "H" = true -> d' !! "H" = None).
Proof.
  apply (refreshFeed_outside_enumeration Sample2.decoder Sample.noDecoder
           [Sample.ok x04] [Sample2.acceptedOnH] 2000 (DataCache 0) "H").
  - repeat constructor.
  - apply DataCache_tracked.
  - apply (bool_decide_unpack _). by vm_compute.
Defined.

(** ** What a scrape cycle does to a line the snapshot judges *)

(** X5.  After a cycle whose scrape resolved, at clock [now], a line the
    snapshot judges and that has a record [r] has: [activeTime] raised
    by [now - lastUpdated r]; [lastUpdated] equal to [now];
    [undelayedTime] raised by the same amount when the judgment is
    [undelayed] and left as it was when it is [delayed], whatever the
    status before; status [DELAYED] or [NOT_DELAYED] as judged. *)
Theorem refreshScrape_judged_line
    (page : Page) (lineStatus : LineStatus) (now : Z) (d : Store)
    (line : string) (j : Judgment) (r : LineRecord) :
  scrapePage page = Resolved lineStatus ->
  getJudgment lineStatus line = Some j ->
  d !! line = Some r ->
  exists d' r',
    refreshScrape page now d = Applied d'
    ∧ d' !! line = Some r'
    ∧ activeTime r' = activeTime r + (now - lastUpdated r)
    ∧ lastUpdated r' = now
    ∧ undelayedTime r' =
        match j with
        | undelayed => undelayedTime r + (now - lastUpdated r)
        | delayed => undelayedTime r
        end
    ∧ status r' = match j with delayed => DELAYED | undelayed => NOT_DELAYED end.
Proof.
  intros Hp Hj Hr.
  destruct (refreshScrape_Applied page lineStatus now d Hp) as (d' & -> & Hl & _).
  exists d', (markScraped now (Some j) r). split; [done |].
  split; [by rewrite Hl, Hj; unfold scraped; rewrite Hr, Hj |].
  destruct (markScraped_cases now (Some j) r) as (-> & -> & -> & ->).
  by destruct j.
Qed.

Lemma refreshScrape_judged_line_witness :
  exists d' r',
    refreshScrape Sample.statusPage 500 (DataCache 0) = Applied d'
    ∧ d' !! "C" = Some r'
    ∧ activeTime r' = 0 + (500 - 0)
    ∧ lastUpdated r' = 500
    ∧ undelayedTime r' = 0 + (500 - 0)
    ∧ status r' = NOT_DELAYED.
Proof.
  apply (refreshScrape_judged_line Sample.statusPage
           [("A", delayed); ("C", undelayed)] 500 (DataCache 0) "C"
           undelayed (initLineData 0)); reflexivity.
Defined.

(** X6.  A line the snapshot judges and that has no record gets one
    created at [now]: both counters at zero, [lastUpdated] equal to
    [now], status as judged. *)
Theorem refreshScrape_creates_record
    (page : Page) (lineStatus : LineStatus) (now : Z) (d : Store)
    (line : string) (j : Judgment) :
  scrapePage page = Resolved lineStatus ->
  getJudgment lineStatus line = Some j ->
  d !! line = None ->
  inherited line = false ->
  store_of (refreshScrape page now d) !! line =
    Some {| activeTime := 0; undelayedTime := 0; lastUpdated := now;
            status := match j with
                      | delayed => DELAYED
                      | undelayed => NOT_DELAYED
                      end |}.
Proof.
  intros Hp Hj Hn Hi.
  destruct (refreshScrape_Applied page lineStatus now d Hp) as (d' & -> & Hl & _).
  assert (Hlen : String.length line = 1%nat)
    by (apply (scrapePage_single_character page lineStatus); eauto).
  cbn [store_of]. rewrite Hl, Hj. unfold scraped.
  rewrite Hn, protoField_false_inheritedValue, Hj
    by auto using protoField_single_character.
  destruct j; unfold markScraped; cbn; do 2 f_equal; lia.
Qed.

Lemma refreshScrape_creates_record_witness :
  store_of (refreshScrape Sample.statusPage 500 ∅) !! "A" =
    Some {| activeTime := 0; undelayedTime := 0; lastUpdated := 500;
            status := DELAYED |}.
Proof.
  apply (refreshScrape_creates_record Sample.statusPage
           [("A", delayed); ("C", undelayed)] 500 ∅ "A" delayed);
    reflexivity.
Defined.

(** X7.  The interval a scrape cycle does not account for a line it
    leaves unjudged is accounted by the next cycle that judges the line:
    for that line, a cycle that does not judge it followed by a second
    cycle gives what the second cycle alone gives. *)
Theorem refreshScrape_unjudged_then_judged
    (page1 page2 : Page) (lineStatus1 : LineStatus) (now1 now2 : Z)
    (d : Store) (line : string) :
  scrapePage page1 = Resolved lineStatus1 ->
  getJudgment lineStatus1 line = None ->
  store_of (refreshScrape page2 now2 (store_of (refreshScrape page1 now1 d)))
    !! line
  = store_of (refreshScrape page2 now2 d) !! line.
Proof.
  intros Hp1 Hj1.
  destruct (refreshScrape_Applied page1 lineStatus1 now1 d Hp1)
    as (d1 & -> & Hl1 & Hp1'). cbn [store_of].
  specialize (Hl1 line). rewrite Hj1 in Hl1.
  destruct (scrapePage page2) as [lineStatus2 |] eqn:Hp2.
  - destruct (refreshScrape_Applied page2 lineStatus2 now2 d1 Hp2)
      as (d2 & -> & Hl2 & _).
    destruct (refreshScrape_Applied page2 lineStatus2 now2 d Hp2)
      as (d2' & -> & Hl2' & _).
    cbn [store_of]. rewrite Hl2, Hl2'. unfold scraped. by rewrite Hl1, Hp1'.
  - unfold refreshScrape. rewrite Hp2. done.
Qed.

Lemma refreshScrape_unjudged_then_judged_witness :
  store_of (refreshScrape Sample.statusPage 900
              (store_of (refreshScrape Sample.blankPage 500 (DataCache 0))))
    !! "C"
  = store_of (refreshScrape Sample.statusPage 900 (DataCache 0)) !! "C".
Proof.
  apply (refreshScrape_unjudged_then_judged Sample.blankPage
           Sample.statusPage [] 500 900 (DataCache 0) "C"); reflexivity.
Defined.

(** ** The walk of scrapePage *)

(** X8.  Nothing before the heading named Service Status counts: on a
    snapshot without such a heading the walk resolves with an empty
    [lineStatus], whatever headings and line buttons the page holds. *)
Theorem scrapePage_without_section (children : list AXNode) :
  Forall notServiceStatus children ->
  scrapePage (Snapshot (Some children)) = Resolved [].
Proof.
  intros H. unfold scrapePage.
  assert (G : forall w, serviceStatusSection w = false ->
                        forEach onNode children w = Normal w).
  { induction H as [| node children Hnode _ IH]; intros w Hw; [done |].
    cbn [forEach]. unfold onNode at 1.
    assert (String.eqb (role node) "heading" && nameIs node "Service Status"
            = false) as ->.
    { apply andb_false_iff. unfold nameIs.
      destruct Hnode as [Hr | Hn].
      - left. by apply String.eqb_neq.
      - right. destruct (name node) as [nm |]; [| done].
        apply String.eqb_neq. congruence. }
    rewrite Hw. by apply IH. }
  by rewrite G.
Qed.

Lemma scrapePage_without_section_witness :
  scrapePage (Snapshot (Some Sample2.noSection)) = Resolved [].
Proof.
  apply (scrapePage_without_section Sample2.noSection).
  unfold Sample2.noSection.
  repeat (constructor; [right; discriminate |]). constructor.
Defined.

(** X9.  The walk only ever judges names of one character, so a cycle
    on the scrape leaves every record under a longer name, such as the
    listed line SI, exactly as it was, whatever the page shows. *)
Theorem refreshScrape_single_character
    (page : Page) (now : Z) (d : Store) (line : string) :
  String.length line ≠ 1%nat ->
  store_of (refreshScrape page now d) !! line = d !! line.
Proof.
  intros Hlen. destruct (scrapePage page) as [lineStatus |] eqn:Hp.
  - destruct (refreshScrape_Applied page lineStatus now d Hp)
      as (d' & -> & Hl & _).
    cbn [store_of]. rewrite Hl.
    destruct (getJudgment lineStatus line) as [j |] eqn:Hj; [| done].
    destruct Hlen. apply (scrapePage_single_character page lineStatus); eauto.
  - unfold refreshScrape. by rewrite Hp.
Qed.

Lemma refreshScrape_single_character_witness :
  store_of (refreshScrape Sample.statusPage 500 (DataCache 0)) !! "SI"
  = DataCache 0 !! "SI".
Proof.
  apply (refreshScrape_single_character Sample.statusPage 500 (DataCache 0)
           "SI").
  cbn. lia.
Defined.

(** X11.  A line is judged delayed only under a heading that reads
    exactly Delays: on a snapshot none of whose nodes has that name, no
    line is judged delayed. *)
Theorem scrapePage_delayed_needs_heading
    (children : list AXNode) (lineStatus : LineStatus) (line : string) :
  Forall (fun node => name node ≠ Some "Delays") children ->
  scrapePage (Snapshot (Some children)) = Resolved lineStatus ->
  getJudgment lineStatus line ≠ Some delayed.
Proof.
  intros Hnames. unfold scrapePage.
  destruct (forEach onNode children _) as [w |] eqn:E; [| done].
  intros [= <-].
  enough (G : heading w ≠ Some "Delays"
              ∧ forall line, getJudgment (lineStatus w) line ≠ Some delayed)
    by apply G.
  apply (forEach_Normal_inv onNode (fun node => name node ≠ Some "Delays")
           (fun w => heading w ≠ Some "Delays"
                     ∧ forall line,
                         getJudgment (lineStatus w) line ≠ Some delayed)
           children) with (s := mkWalk false (Some "") []) (s' := w);
    [| done | done | done].
  intros node s s' Hname [Hh Hs] Hnode.
  destruct (onNode_Normal _ _ _ Hnode) as [Hl Hh'].
  assert (Hh2 : heading s' ≠ Some "Delays").
  { destruct Hh' as [-> | [-> | ->]]; done. }
  split; [done |]. intros l.
  destruct Hl as [-> | (nm & l' & _ & _ & ->)]; [apply Hs |].
  rewrite getJudgment_assign, bool_decide_eq_false_2 by done.
  destruct (String.eqb l' l); [done | apply Hs].
Qed.

Lemma scrapePage_delayed_needs_heading_witness :
  getJudgment [("A", undelayed); ("C", undelayed)] "C" ≠ Some delayed.
Proof.
  apply (scrapePage_delayed_needs_heading Sample2.goodService
           [("A", undelayed); ("C", undelayed)] "C").
  - unfold Sample2.goodService.
    repeat (constructor; [discriminate |]). constructor.
  - reflexivity.
Defined.

(** ** The pattern of the line buttons *)

Lemma append_String (c : ascii) (s1 s2 : string) :
  String.append (String c s1) s2 = String c (String.append s1 s2).
Proof. reflexivity. Qed.

Lemma length_append (s1 s2 : string) :
  String.length (String.append s1 s2)
  = (String.length s1 + String.length s2)%nat.
Proof.
  induction s1 as [| c s1 IH]; [done |].
  rewrite append_String. simpl. by f_equal.
Qed.

Lemma substring_skip (pre s : string) (m : nat) :
  substring (String.length pre) m (String.append pre s) = substring 0 m s.
Proof.
  induction pre as [| c pre IH]; [done |]. rewrite append_String. apply IH.
Qed.

Lemma substring_all (s : string) : substring 0 (String.length s) s = s.
Proof. induction s as [| c s IH]; simpl; [done | by f_equal]. Qed.

Lemma substring_split (n : nat) : forall s : string,
  (n <= String.length s)%nat ->
  s = String.append (substring 0 n s) (substring n (String.length s - n) s).
Proof.
  induction n as [| n IH]; intros s Hn.
  - rewrite Nat.sub_0_r, substring_all. by destruct s.
  - destruct s as [| c s]; simpl in Hn; [lia |].
    simpl. rewrite append_String. f_equal. apply IH. lia.
Qed.

Lemma length_substring (n : nat) : forall (m : nat) (s : string),
  (n + m <= String.length s)%nat -> String.length (substring n m s) = m.
Proof.
  induction n as [| n IH]; intros m s.
  - revert s. induction m as [| m IHm]; intros s Hm.
    + by destruct s.
    + destruct s as [| c s]; simpl in Hm; [lia |].
      simpl. f_equal. apply IHm. lia.
  - destruct s as [| c s]; simpl; [lia |]. intros H. apply IH. lia.
Qed.

Lemma last_character (k : nat) : forall (t : string) (c : ascii),
  String.length t = S k -> get k t = Some c ->
  t = String.append (substring 0 k t) (String c EmptyString).
Proof.
  induction k as [| k IH]; intros t c Hlen Hget.
  - destruct t as [| a [| b t]]; simpl in *; try done.
    injection Hget as ->. reflexivity.
  - destruct t as [| a t]; simpl in *; [done |].
    rewrite append_String. f_equal. apply IH; [lia | done].
Qed.

(** X10.  The pattern of the line buttons, in full: a name is matched
    exactly when it ends in "Subway Line " followed by one character
    that is a letter, a digit, an underscore or a star, and that
    character is the line. *)
Theorem lineMatch_iff (nm line : string) :
  lineMatch nm = Some line
  <-> exists (pre : string) (c : ascii),
        nm = String.append pre
               (String.append "Subway Line " (String c EmptyString))
        ∧ wordOrStar c = true
        ∧ line = String c EmptyString.
Proof.
  unfold lineMatch. split.
  - destruct (String.length nm <? 13)%nat eqn:En; [done |].
    apply Nat.ltb_ge in En.
    set (tail := substring (String.length nm - 13) 13 nm).
    destruct (get 12 tail) as [c |] eqn:Ec; [| done].
    destruct (String.eqb (substring 0 12 tail) "Subway Line "
              && wordOrStar c) eqn:Eb; [| done].
    intros [= <-]. apply andb_true_iff in Eb as [Et Ew].
    apply String.eqb_eq in Et.
    exists (substring 0 (String.length nm - 13) nm), c.
    split; [| done].
    assert (Hlen : String.length tail = 13%nat)
      by (apply length_substring; lia).
    rewrite <- Et, <- (last_character 12 tail c Hlen Ec).
    rewrite (substring_split (String.length nm - 13) nm) at 1 by lia.
    do 2 f_equal. lia.
  - intros (pre & c & -> & Hw & ->).
    let t := eval cbv in (String.append "Subway Line " (String c EmptyString))
    in change (String.append "Subway Line " (String c EmptyString)) with t.
    rewrite length_append. cbn [String.length].
    replace (String.length pre + 13 <? 13)%nat with false
      by (symmetry; apply Nat.ltb_ge; lia).
    replace (String.length pre + 13 - 13)%nat with (String.length pre) by lia.
    rewrite substring_skip. cbn. by rewrite Hw.
Qed.

(** ** The constructor *)

(** X12.  The constructor creates one record for each name of
    [SUBWAY_LINES] and for no other name; every record starts with both
    counters at zero, [lastUpdated] at [startTime] and status
    [NOT_DELAYED]. *)
Theorem DataCache_records (startTime : Z) (lineId : string) (r : LineRecord) :
  DataCache startTime !! lineId = Some r
  <-> lineId ∈ SUBWAY_LINES
      ∧ r = {| activeTime := 0; undelayedTime := 0;
               lastUpdated := startTime; status := NOT_DELAYED |}.
Proof.
  rewrite DataCache_lookup. case_bool_decide as H.
  - split; [by intros [= <-] | by intros [_ ->]].
  - split; [done | by intros [? _]].
Qed.

(** ** Elapsed time *)

Lemma anchor_kept
    (nstrDecoder nsssDecoder : list byte -> option FeedMessage)
    sourceIsGtfsApi up d :
  related (fun r r' => anchor r' = anchor r) d
    (store_of (refreshData nstrDecoder nsssDecoder sourceIsGtfsApi up d)).
Proof.
  apply (Preserves_refreshData (fun _ => True)
           (fun r r' => anchor r' = anchor r)); try done.
  - intros r1 r2 r3 H12 H23. congruence.
  - intros r _. split; [done |]. unfold anchor, markDelayed; cbn. lia.
  - intros r _. split; [done |]. unfold anchor, markUnseen; cbn. lia.
  - intros j r _. split; [done |]. unfold anchor.
    destruct (markScraped_cases (currentTime up) j r) as (-> & -> & _). lia.
Qed.

(** X13.  Whatever cycles have run, under either source, however they
    ended and whatever their clocks read, a listed line still has its
    record, and its [activeTime] is [lastUpdated] minus the start time
    of the cache.  So the denominator of [getUptime] is the time since
    construction: the baseline sentence is the answer exactly while
    fewer than 1000 ms have passed since the cache was built. *)
Theorem getUptime_since_construction
    (nstrDecoder nsssDecoder : list byte -> option FeedMessage)
    (cycles : list (bool * Upstream)) (startTime now : Z) (line : string) :
  line ∈ SUBWAY_LINES ->
  let d := runCycles nstrDecoder nsssDecoder cycles (DataCache startTime) in
  exists r,
    d !! line = Some r
    ∧ activeTime r = lastUpdated r - startTime
    ∧ getUptime d now line =
        if now - startTime <? 1000 then Message NO_BASELINE
        else ToFixed3
               (match status r with
                | NOT_DELAYED => undelayedTime r + (now - lastUpdated r)
                | DELAYED => undelayedTime r
                end)
               (now - startTime).
Proof.
  intros Hin d.
  assert (G : exists r, d !! line = Some r ∧ anchor r = startTime).
  { subst d. unfold runCycles.
    assert (H0 : exists r, DataCache startTime !! line = Some r
                           ∧ anchor r = startTime).
    { exists (initLineData startTime). split.
      - by rewrite DataCache_lookup, bool_decide_eq_true_2.
      - unfold anchor; cbn. lia. }
    revert H0. generalize (DataCache startTime).
    induction cycles as [| [flag up] cycles IH]; intros d0 H0; [done |].
    cbn [foldl]. apply IH. destruct H0 as (r & Hr & Ha).
    destruct (anchor_kept nstrDecoder nsssDecoder flag up d0 line r Hr)
      as (r' & Hr' & Ha').
    exists r'. split; [done | congruence]. }
  destruct G as (r & Hr & Ha). exists r. unfold anchor in Ha.
  split; [done |]. split; [lia |].
  unfold getUptime. rewrite (getProperty_Own _ _ _ Hr).
  replace (activeTime r + (now - lastUpdated r)) with (now - startTime) by lia.
  done.
Qed.

Lemma getUptime_since_construction_witness :
  let d := runCycles Sample.decoder Sample.noDecoder Sample2.threeCycles
             (DataCache 0) in
  exists r,
    d !! "A" = Some r
    ∧ activeTime r = lastUpdated r - 0
    ∧ getUptime d 125000 "A" =
        if 125000 - 0 <? 1000 then Message NO_BASELINE
        else ToFixed3
               (match status r with
                | NOT_DELAYED => undelayedTime r + (125000 - lastUpdated r)
                | DELAYED => undelayedTime r
                end)
               (125000 - 0).
Proof.
  apply (getUptime_since_construction Sample.decoder Sample.noDecoder
           Sample2.threeCycles 0 125000 "A").
  by apply (bool_decide_unpack _).
Defined.

(** ** Both counters only grow *)

(** X14.  The clock not running backwards, a cycle run on a reachable
    store, whatever its source and outcome, lowers neither
    [undelayedTime] nor the delayed time [activeTime - undelayedTime] of
    any record: an interval once accounted as undelayed or as delayed
    stays so. *)
Theorem counters_never_decrease
    (nstrDecoder nsssDecoder : list byte -> option FeedMessage)
    (t : Z) (d : Store) (sourceIsGtfsApi : bool) (up : Upstream)
    (key : string) (r : LineRecord) :
  reachable nstrDecoder nsssDecoder t d ->
  t <= currentTime up ->
  d !! key = Some r ->
  exists r',
    store_of (refreshData nstrDecoder nsssDecoder sourceIsGtfsApi up d) !! key
    = Some r'
    ∧ undelayedTime r <= undelayedTime r'
    ∧ delayedTime r <= delayedTime r'.
Proof.
  intros Hreach Hle Hr.
  set (now := currentTime up).
  destruct (Preserves_refreshData
              (fun r => lastUpdated r <= now)
              (fun r r' => undelayedTime r <= undelayedTime r'
                           ∧ delayedTime r <= delayedTime r')
              nstrDecoder nsssDecoder sourceIsGtfsApi up d) as [_ Hrel].
  - intros. lia.
  - intros r1 r2 r3 [? ?] [? ?]. lia.
  - cbn. lia.
  - intros x Hx. unfold delayedTime, markDelayed; cbn. fold now. lia.
  - intros [a u l [|]] Hx; unfold delayedTime, markUnseen; cbn in *;
      fold now; lia.
  - intros j x Hx. unfold delayedTime. fold now.
    destruct (markScraped_cases now j x) as (-> & -> & -> & _).
    destruct j as [[|] |]; lia.
  - intros k x Hk.
    destruct (reachable_upTo _ _ _ _ Hreach k x Hk) as [_ ?]. lia.
  - destruct (Hrel key r Hr) as (r' & ? & ? & ?). eauto.
Qed.

Lemma counters_never_decrease_witness :
  exists r',
    store_of (refreshData Sample.decoder Sample.noDecoder true
                Sample.feedCycle (DataCache 0)) !! "A"
    = Some r'
    ∧ undelayedTime (initLineData 0) <= undelayedTime r'
    ∧ delayedTime (initLineData 0) <= delayedTime r'.
Proof.
  apply (counters_never_decrease Sample.decoder Sample.noDecoder 0
           (DataCache 0) true Sample.feedCycle "A" (initLineData 0)).
  - apply reach_DataCache.
  - cbn. lia.
  - reflexivity.
Defined.

(** ** The uptime is a fraction *)

(** X15.  The clock not running backwards, whenever [getUptime] on a
    reachable store formats a quotient, the numerator lies between 0 and
    the denominator and the denominator is at least 1000: the figure is
    a fraction between 0 and 1, never a division by zero. *)
Theorem getUptime_is_a_fraction
    (nstrDecoder nsssDecoder : list byte -> option FeedMessage)
    (t : Z) (d : Store) (now : Z) (line : string) (num den : Z) :
  reachable nstrDecoder nsssDecoder t d ->
  t <= now ->
  getUptime d now line = ToFixed3 num den ->
  0 <= num <= den ∧ 1000 <= den.
Proof.
  intros Hreach Hle. unfold getUptime, getProperty.
  destruct (d !! line) as [r |] eqn:Hr.
  - destruct (reachable_upTo _ _ _ _ Hreach line r Hr) as [[? ?] ?].
    destruct (activeTime r + (now - lastUpdated r) <? 1000) eqn:E; [done |].
    apply Z.ltb_ge in E. intros [= <- <-]. destruct (status r); lia.
  - destruct (inheritedValue (prototype d) line) eqn:E; try done.
    by apply inheritedValue_not_Own in E.
Qed.

Lemma getUptime_is_a_fraction_witness :
  getUptime (store_of (refreshData Sample.decoder Sample.noDecoder true
                         Sample.feedCycle (DataCache 0))) 5000 "A"
  = ToFixed3 0 5000
  ∧ (0 <= 0 <= 5000 ∧ 1000 <= 5000).
Proof.
  split; [reflexivity |].
  apply (getUptime_is_a_fraction Sample.decoder Sample.noDecoder 2000
           (store_of (refreshData Sample.decoder Sample.noDecoder true
                        Sample.feedCycle (DataCache 0)))
           5000 "A" 0 5000).
  - apply (reach_refreshData _ _ 0 (DataCache 0) true Sample.feedCycle).
    + apply reach_DataCache.
    + cbn. lia.
  - lia.
  - reflexivity.
Defined.

(** ** Two cycles at the same clock reading *)

(** The store after the mentions, then the loop over [SUBWAY_LINES],
    of a cycle in which every request resolved with a decoded message. *)
Lemma refreshFeed_Applied_env
    (nstrDecoder nsssDecoder : list byte -> option FeedMessage)
    (responses : list Response) (ms : list FeedMessage) (now : Z)
    (d : Store) :
  Forall2 (delivers nstrDecoder nsssDecoder) responses ms ->
  (forall l, l ∈ SUBWAY_LINES -> is_Some (d !! l)) ->
  let e1 := foldl (mention now) (mkEnv ∅ d) (delayRoutes ms) in
  exists d',
    refreshFeed nstrDecoder nsssDecoder responses now d = Applied d'
    ∧ prototype d' = prototype (lineData e1)
    ∧ forall key,
        d' !! key =
          if bool_decide (key ∈ SUBWAY_LINES) && negb (seen e1 key)
          then markUnseen now <$> lineData e1 !! key
          else lineData e1 !! key.
Proof.
  intros Hall Hrec e1. unfold refreshFeed, onResults.
  rewrite (Promise_all_delivers _ _ _ _ Hall), forEach_onFeedMessage.
  fold e1.
  destruct (forEach_onSubwayLine now SUBWAY_LINES e1)
    as (e' & -> & _ & Hp & Hl).
  { intros l Hin. destruct (Hrec l Hin) as [r Hr]. subst e1.
    rewrite mentions_lookup by (left; cbn; eauto). cbn [lineData].
    case_bool_decide; [| eauto]. unfold mentioned. rewrite Hr. eauto. }
  exists (lineData e'). done.
Qed.

Lemma mention_settled now e route :
  settled now (lineData e) route ->
  lineData (mention now e route) = lineData e.
Proof.
  unfold settled, mention, getProperty, truthyInherited.
  destruct (lineData e !! route) as [r |] eqn:Hr.
  - intros ->. cbn [lineData]. apply store_eq; [| done].
    intros key. destruct (decide (key = route)) as [-> | Hne].
    + by rewrite store_lookup_insert_eq.
    + by rewrite store_lookup_insert_ne.
  - intros [Ht Hp].
    destruct (inheritedValue (prototype (lineData e)) route); try done.
    cbn [lineData]. unfold writeDelayed.
    destruct (String.eqb route "__proto__") eqn:E; [| done].
    apply String.eqb_eq in E. destruct (Hp E) as [H1 H2].
    destruct (lineData e) as [m [a b c]]. cbn in *. by subst.
Qed.

Lemma settled_mention_self now e route :
  settled now (lineData (mention now e route)) route.
Proof.
  unfold settled. rewrite mention_lookup_eq. unfold mentioned.
  destruct (lineData e !! route) as [r |] eqn:Hr;
    [by rewrite markDelayed_twice |].
  destruct (truthyInherited (prototype (lineData e)) route) eqn:Ht;
    [| by rewrite markDelayed_twice].
  split; [by apply mention_truthyInherited |].
  intros ->. unfold mention, getProperty. rewrite Hr.
  by rewrite inheritedValue_inherited.
Qed.

Lemma mention_prototype_cases now e route :
  prototype (lineData (mention now e route)) = prototype (lineData e)
  ∨ prototype (lineData (mention now e route))
    = {| protoLastUpdated := Some now; protoStatus := Some DELAYED;
         protoUndelayedTime := protoUndelayedTime (prototype (lineData e)) |}.
Proof.
  unfold mention. destruct (getProperty (lineData e) route); cbn [lineData];
    rewrite ?prototype_insert; try by left.
  unfold writeDelayed. destruct (String.eqb route "__proto__");
    [by right | by left].
Qed.

(** A name that reads truthy through [Object.prototype] still does
    after a write through [__proto__] at a clock reading other than 0. *)
Lemma truthyInherited_writeDelayed now p key :
  now ≠ 0 ->
  truthyInherited p key = true ->
  truthyInherited
    {| protoLastUpdated := Some now; protoStatus := Some DELAYED;
       protoUndelayedTime := protoUndelayedTime p |} key = true.
Proof.
  intros Hnow. unfold truthyInherited, inheritedValue. cbn.
  destruct (inherited key); [done |].
  destruct (String.eqb key "status"); [done |].
  destruct (String.eqb key "lastUpdated").
  - intros _. by rewrite (proj2 (Z.eqb_neq now 0)).
  - destruct (String.eqb key "activeTime");
      [by destruct (protoLastUpdated p) |].
    by destruct (String.eqb key "undelayedTime"),
                (protoUndelayedTime p).
Qed.

Lemma settled_mention now e route key :
  now ≠ 0 ->
  settled now (lineData e) key ->
  settled now (lineData (mention now e route)) key.
Proof.
  intros Hnow H. destruct (decide (key = route)) as [-> | Hne];
    [apply settled_mention_self |].
  revert H. unfold settled. rewrite mention_lookup_ne by done.
  destruct (lineData e !! key) as [r |]; [done |].
  intros [Ht Hp].
  destruct (mention_prototype_cases now e route) as [-> | ->]; [done |].
  split; [by apply truthyInherited_writeDelayed | done].
Qed.

Lemma settled_mentions now routes key :
  now ≠ 0 ->
  forall e,
    settled now (lineData e) key ->
    settled now (lineData (foldl (mention now) e routes)) key.
Proof.
  intros Hnow. induction routes as [| x routes IH]; intros e H; [done |].
  cbn [foldl]. by apply IH, settled_mention.
Qed.

(** At a clock reading other than 0, every route a cycle names is
    settled once all its mentions are done. *)
Lemma mentions_settled now routes key :
  now ≠ 0 ->
  forall e,
    key ∈ routes ->
    settled now (lineData (foldl (mention now) e routes)) key.
Proof.
  intros Hnow. induction routes as [| x routes IH]; intros e Hin;
    [by apply elem_of_nil in Hin |].
  cbn [foldl]. apply elem_of_cons in Hin as [-> | Hin].
  - apply settled_mentions; [done | apply settled_mention_self].
  - by apply IH.
Qed.

(** Mentions of settled routes leave the store as it is. *)
Lemma mentions_of_settled now routes : forall e,
  (forall key, key ∈ routes -> settled now (lineData e) key) ->
  lineData (foldl (mention now) e routes) = lineData e.
Proof.
  induction routes as [| x routes IH]; intros e H; [done |].
  cbn [foldl].
  assert (Hx : lineData (mention now e x) = lineData e).
  { apply mention_settled, H, elem_of_cons. by left. }
  rewrite IH; [done |].
  intros key Hin. rewrite Hx. apply H, elem_of_cons. by right.
Qed.

(** X16.  A successful cycle on the feed run a second time on the same
    answers at the same clock reading, other than 0, changes nothing
    more: no interval is counted twice and no status changes. *)
Theorem refreshFeed_same_clock_twice
    (nstrDecoder nsssDecoder : list byte -> option FeedMessage)
    (responses : list Response) (ms : list FeedMessage) (now : Z)
    (d : Store) :
  Forall2 (delivers nstrDecoder nsssDecoder) responses ms ->
  (forall l, l ∈ SUBWAY_LINES -> is_Some (d !! l)) ->
  now ≠ 0 ->
  refreshFeed nstrDecoder nsssDecoder responses now
    (store_of (refreshFeed nstrDecoder nsssDecoder responses now d))
  = refreshFeed nstrDecoder nsssDecoder responses now d.
Proof.
  intros Hall Hrec Hnow.
  destruct (refreshFeed_Applied_env _ _ _ _ now d Hall Hrec)
    as (d1 & -> & P1 & H1).
  cbn [store_of].
  set (e1 := foldl (mention now) (mkEnv ∅ d) (delayRoutes ms)) in *.
  assert (Hseen : forall key, key ∈ delayRoutes ms -> seen e1 key = true).
  { intros key Hin. unfold seen. subst e1. rewrite mentions_linesSeen.
    rewrite bool_decide_eq_true_2; [done |].
    apply elem_of_union_l. by apply elem_of_list_to_set. }
  assert (Hrec1 : forall l, l ∈ SUBWAY_LINES -> is_Some (d1 !! l)).
  { intros l Hl. destruct (Hrec l Hl) as [r Hr].
    assert (is_Some (lineData e1 !! l)) as [r1 Hr1].
    { subst e1. rewrite mentions_lookup by (left; cbn; eauto).
      cbn [lineData]. case_bool_decide; [| eauto].
      unfold mentioned. rewrite Hr. eauto. }
    rewrite H1, Hr1. by destruct (_ && _). }
  assert (Hset : forall key, key ∈ delayRoutes ms -> settled now d1 key).
  { intros key Hin.
    pose proof (mentions_settled now (delayRoutes ms) key Hnow (mkEnv ∅ d) Hin)
      as Hs.
    fold e1 in Hs. unfold settled in *.
    by rewrite H1, (Hseen key Hin), andb_false_r, P1. }
  destruct (refreshFeed_Applied_env _ _ _ _ now d1 Hall Hrec1)
    as (d2 & -> & P2 & H2).
  set (e2 := foldl (mention now) (mkEnv ∅ d1) (delayRoutes ms)) in *.
  assert (Hd : lineData e2 = d1).
  { subst e2. by rewrite mentions_of_settled. }
  assert (Hs : forall key, seen e2 key = seen e1 key).
  { intros key. apply seen_linesSeen.
    - subst e1 e2. by rewrite !mentions_linesSeen.
    - by rewrite Hd. }
  f_equal. apply store_eq; [| by rewrite P2, Hd].
  intros key. rewrite H2, Hs, Hd, H1.
  destruct (bool_decide (key ∈ SUBWAY_LINES) && negb (seen e1 key));
    [| done].
  destruct (lineData e1 !! key) as [r |]; [| done].
  cbn. by rewrite markUnseen_twice.
Qed.

Lemma refreshFeed_same_clock_twice_witness :
  refreshFeed Sample.decoder Sample.noDecoder [Sample.ok x03] 2000
    (store_of (refreshFeed Sample.decoder Sample.noDecoder [Sample.ok x03]
                 2000 (DataCache 0)))
  = refreshFeed Sample.decoder Sample.noDecoder [Sample.ok x03] 2000
      (DataCache 0).
Proof.
  apply (refreshFeed_same_clock_twice Sample.decoder Sample.noDecoder
           [Sample.ok x03] [Sample.acceptedTwiceOnA] 2000 (DataCache 0)).
  - repeat constructor.
  - apply DataCache_tracked.
  - lia.
Defined.

(** At the clock reading 0 a second run can differ from the first.
    After a cycle at clock 5 that names [__proto__], a cycle at clock 0
    that names [lastUpdated], then [__proto__], finds the number 5 under
    [lastUpdated] and creates nothing; run again, it finds the number 0
    there, which is falsy, and creates a record. *)
Lemma refreshFeed_twice_at_clock_zero :
  let d := store_of (refreshFeed Sample3.decoder Sample.noDecoder
                       [Sample.ok x05] 5 (DataCache 0)) in
  let d1 := store_of (refreshFeed Sample3.decoder Sample.noDecoder
                        [Sample.ok x06] 0 d) in
  let d2 := store_of (refreshFeed Sample3.decoder Sample.noDecoder
                        [Sample.ok x06] 0 d1) in
  d1 !! "lastUpdated" = None
  ∧ d2 !! "lastUpdated"
    = Some {| activeTime := 0; undelayedTime := 0; lastUpdated := 0;
              status := DELAYED |}.
Proof. by vm_compute. Qed.

(** X17.  A cycle on the scrape run a second time on the same page at
    the same clock reading leaves the store the first run left, whatever
    the page and the store. *)
Theorem refreshScrape_same_clock_twice (page : Page) (now : Z) (d : Store) :
  store_of (refreshScrape page now (store_of (refreshScrape page now d)))
  = store_of (refreshScrape page now d).
Proof.
  destruct (scrapePage page) as [lineStatus |] eqn:Hp.
  - destruct (refreshScrape_Applied page lineStatus now d Hp)
      as (d1 & -> & H1 & P1). cbn [store_of].
    destruct (refreshScrape_Applied page lineStatus now d1 Hp)
      as (d2 & -> & H2 & P2). cbn [store_of].
    apply store_eq; [| done].
    intros key. rewrite H2. pose proof (H1 key) as Hk.
    destruct (getJudgment lineStatus key) as [j |]; [| done].
    rewrite Hk. unfold scraped at 1. rewrite Hk, P1. unfold scraped.
    destruct (d !! key) as [r |].
    + by rewrite markScraped_twice.
    + destruct (truthyInherited (prototype d) key) eqn:Ht; [done |].
      by rewrite markScraped_twice.
  - unfold refreshScrape. rewrite Hp. cbn [store_of]. done.
Qed.

(** ** The headers the pattern accepts *)

(** X18.  The headers the test of lines 122 / 406 accepts are exactly
    those made of the six letters of "delays" in either case, then the
    character U+0008, then anything. *)
Theorem isDelayHeader_iff (alertHeader : string) :
  isDelayHeader alertHeader = true
  <-> exists token rest : string,
        alertHeader = String.append token (String backspace rest)
        ∧ canonicalizeAll token = "DELAYS".
Proof.
  split.
  - unfold isDelayHeader, search_delaysRegExp. intros H.
    apply andb_true_iff in H as [_ H].
    destruct (matchLiteral delaysRegExp_literal alertHeader) eqn:M;
      [| discriminate H].
    clear H.
    let lit := eval vm_compute in delaysRegExp_literal in
      change delaysRegExp_literal with lit in M.
    repeat (destruct alertHeader as [| ? alertHeader]; [discriminate M |];
            cbn [matchLiteral] in M;
            match type of M with
            | (if ?b then _ else _) = true =>
                destruct b eqn:?; [| discriminate M]
            end).
    repeat match goal with
           | E : Ascii.eqb (canonicalize ?p) (canonicalize _) = true |- _ =>
               apply Ascii.eqb_eq in E; symmetry in E;
               let v := eval vm_compute in (canonicalize p) in
               change (canonicalize p) with v in E
           end.
    match goal with
    | E : canonicalize ?c = _ |- _ =>
        apply canonicalize_backspace in E; subst c
    end.
    match goal with
    | |- exists token rest,
           String ?a1 (String ?a2 (String ?a3 (String ?a4 (String ?a5
             (String ?a6 (String _ ?r)))))) = _ ∧ _ =>
        exists (String a1 (String a2 (String a3 (String a4 (String a5
                 (String a6 EmptyString)))))), r
    end.
    split; [reflexivity |]. cbn [canonicalizeAll]. congruence.
  - intros (token & rest & -> & Ht).
    do 6 (destruct token as [| ? token]; [discriminate Ht |]).
    destruct token; [| discriminate Ht].
    cbn [canonicalizeAll] in Ht.
    injection Ht as H1 H2 H3 H4 H5 H6.
    unfold isDelayHeader, search_delaysRegExp.
    let lit := eval vm_compute in delaysRegExp_literal in
      change delaysRegExp_literal with lit.
    rewrite !append_String. cbn [matchLiteral String.eqb].
    rewrite H1, H2, H3, H4, H5, H6. reflexivity.
Qed.
